(** * learning-go: the practice snippets, embedded and verified

  The repository is a Go curriculum with a few runnable exercises.  This
  development embeds the ones that carry behaviour:

  - [FizzBuzz]       (phase-01-fundamentals/exercises/exercise-03.go)
  - [TempConvertor]  (package exercises, the temperature converter)
  - [divide], [idGenerator], [square], [add] and [apply] (package main)
  - from the chapters: the [float64] [Divide], the generic [Min], [Max]
    and [Stack], the retry loop [WithRetry], and [Add] with its fuzz
    target

  Go's [int] is taken to be the 64-bit two's-complement type of the usual
  targets; its values are integers of [Z] inside [minInt .. maxInt] and
  every arithmetic result is brought back into that range by [wrap].
  Go's [float64] is IEEE-754 binary64 with round-to-nearest-even, taken
  from the specification of the standard library ([SpecFloat]); each
  operation is rounded on its own.  Finite numbers are read as rationals
  by [F2Q], and the rounding error of an addition, a subtraction and a
  multiplication is derived from the definitions. *)

From Stdlib Require Import ZArith Lia List String Permutation.
From Stdlib Require Import QArith Qabs Qpower Lqa.
From Stdlib Require Import Decimal DecimalString DecimalZ.
From Stdlib Require Import Floats.SpecFloat.
From ExtLib Require Import Structures.Monad Structures.MonadState.
From ExtLib Require Import Data.Monads.StateMonad.
Import ListNotations.

Local Open Scope Z_scope.

(* ===================================================================== *)
(** ** Go's [int] *)
(* ===================================================================== *)

Module GoInt.

Definition intSize : Z := 64.
Definition minInt : Z := - 2 ^ (intSize - 1).
Definition maxInt : Z := 2 ^ (intSize - 1) - 1.

(** The values an [int] variable can hold. *)
Definition in_range (x : Z) : Prop := minInt <= x <= maxInt.

(** Two's-complement wrap-around of an arithmetic result. *)
Definition wrap (x : Z) : Z :=
  (x - minInt) mod 2 ^ intSize + minInt.

(** [a % b] truncates towards zero: the sign follows the dividend. *)
Definition rem (a b : Z) : Z := Z.rem a b.

(** [fmt.Sprint] of one [int]: base ten, a leading minus sign for the
    negatives, no padding. *)
Definition Sprint (n : Z) : string := NilZero.string_of_int (Z.to_int n).

(** Reading a decimal numeral back, the inverse used to validate
    [Sprint]. *)
Definition Atoi (s : string) : option Z :=
  option_map Z.of_int (NilZero.int_of_string s).

End GoInt.

(* ===================================================================== *)
(** ** phase-01-fundamentals/exercises/exercise-03.go *)
(* ===================================================================== *)

Module Exercise03.
Import GoInt.
Local Open Scope string_scope.

(** [func FizzBuzz(n int) (result string, wasModified bool)]: the named
    results start as [wasModified = true]; the expression-less [switch]
    takes the first case that holds. *)
Definition FizzBuzz (n : Z) : string * bool :=
  if (rem n 15 =? 0)%Z then ("FizzBuzz", true)
  else if (rem n 3 =? 0)%Z then ("Fizz", true)
  else if (rem n 5 =? 0)%Z then ("Buzz", true)
  else (Sprint n, false).

End Exercise03.

(* ===================================================================== *)
(** ** Go's [float64] *)
(* ===================================================================== *)

Module Float64.

(** Every operation below rounds its exact result to binary64 once.  The
    language lets a compiler fuse [x*y + z] into one rounding on some
    targets; the operations here are the unfused ones of the default
    amd64 build.  At [temp = 0] the product is exact, so the result there
    does not depend on that choice. *)

Definition prec : Z := 53.
Definition emax : Z := 1024.

Definition float64 : Type := spec_float.

Definition add : float64 -> float64 -> float64 := SFadd prec emax.
Definition sub : float64 -> float64 -> float64 := SFsub prec emax.
Definition mul : float64 -> float64 -> float64 := SFmul prec emax.
Definition div : float64 -> float64 -> float64 := SFdiv prec emax.

(** [float64(z)] for an integer [z], also the value of an integer constant
    used where a [float64] is expected: the nearest binary64, ties to
    even. *)
Definition of_int (z : Z) : float64 := binary_normalize prec emax z 0 false.

(** The constant [273.15]: the binary64 nearest to 27315/100, which is
    [0x4071126666666666]. *)
Definition c273_15 : float64 := S754_finite false 0x11126666666666 (-44).

(** Neither an infinity nor a NaN. *)
Definition is_finite (x : float64) : bool :=
  match x with
  | S754_zero _ | S754_finite _ _ _ => true
  | S754_infinity _ | S754_nan => false
  end.

(** [x == y] and [x < y] on [float64]: false as soon as one side is a NaN,
    and the two zeros are equal. *)
Definition eqb : float64 -> float64 -> bool := SFeqb.
Definition ltb : float64 -> float64 -> bool := SFltb.


(** The rational number a finite [float64] stands for; 0 for the zeros and
    for what is not a number of its own. *)
Definition F2Q (x : float64) : Q :=
  match x with
  | S754_finite s m e => (inject_Z (cond_Zopp s (Z.pos m)) * 2 ^ e)%Q
  | _ => 0%Q
  end.

(** The exponent is not below that of the subnormal numbers. *)
Definition expo_ok (x : float64) : Prop :=
  match x with
  | S754_finite _ _ e => -1074 <= e
  | _ => True
  end.

(** What [n] steps of [shr_1] leave of an exact integer [x]: the quotient
    by [2 ^ n], the first digit dropped and whether anything lies below
    it. *)
Definition shr_inv (x : Z) (n : Z) (mrs : shr_record) : Prop :=
  0 <= shr_m mrs /\
  exists t,
    0 <= t < 2 ^ n /\
    2 * x = shr_m mrs * 2 ^ (n + 1) + (if shr_r mrs then 2 ^ n else 0) + t /\
    (shr_s mrs = true <-> t <> 0).

End Float64.

(* ===================================================================== *)
(** ** package exercises: the temperature converter *)
(* ===================================================================== *)

Module Exercises.
Import Float64.

(** [type Temp = uint8]. *)
Definition Temp : Type := Z.
Definition is_uint8 (m : Temp) : Prop := 0 <= m <= 255.

(** [const ( Celsius Temp = iota; Fahrenheit; Kelvin )]. *)
Definition Celsius : Temp := 0.
Definition Fahrenheit : Temp := 1.
Definition Kelvin : Temp := 2.

Definition nineOverFive : float64 := div (of_int 9) (of_int 5).
Definition fiveOverNine : float64 := div (of_int 5) (of_int 9).

(** [func TempConvertor(temp float64, mode Temp)
          (celsius, fahrenheit, kelvin float64)].
    The result is the triple of the named results, in that order. *)
Definition TempConvertor (temp : float64) (mode : Temp)
  : float64 * float64 * float64 :=
  if mode =? Celsius then
    let celsius := temp in
    let kelvin := add celsius c273_15 in
    let fahrenheit := add (mul celsius nineOverFive) (of_int 32) in
    (celsius, fahrenheit, kelvin)
  else if mode =? Fahrenheit then
    let fahrenheit := temp in
    let celsius := mul (sub fahrenheit (of_int 32)) fiveOverNine in
    let kelvin := add (mul (sub fahrenheit (of_int 32)) fiveOverNine) c273_15 in
    (celsius, fahrenheit, kelvin)
  else if mode =? Kelvin then
    let kelvin := temp in
    let celsius := sub kelvin c273_15 in
    let fahrenheit := add (mul (sub kelvin c273_15) nineOverFive) (of_int 32) in
    (celsius, fahrenheit, kelvin)
  else (of_int 0, of_int 0, of_int 0).

(** The three named results of a call. *)
Definition celsius_of (r : float64 * float64 * float64) : float64 := fst (fst r).
Definition fahrenheit_of (r : float64 * float64 * float64) : float64 := snd (fst r).
Definition kelvin_of (r : float64 * float64 * float64) : float64 := snd r.

(** A whole number of kelvins converted to Celsius and that back to
    Kelvin, compared to the start with [==]. *)
Definition kelvin_there_and_back (k : Z) : bool :=
  eqb (kelvin_of (TempConvertor (celsius_of (TempConvertor (of_int k) Kelvin))
                                Celsius))
      (of_int k).

(** The same from Celsius through Kelvin. *)
Definition celsius_there_and_back (c : Z) : bool :=
  eqb (celsius_of (TempConvertor (kelvin_of (TempConvertor (of_int c) Celsius))
                                 Kelvin))
      (of_int c).

(** The integers [lo, lo + 1, ..., lo + n - 1]. *)
Definition interval (lo : Z) (n : nat) : list Z :=
  map (fun i => lo + Z.of_nat i) (seq 0 n).


End Exercises.

(* ===================================================================== *)
(** ** package main: [divide] and the closure returned by [idGenerator] *)
(* ===================================================================== *)

Module Main.
Import GoInt Float64.
Import MonadNotation.
Local Open Scope monad_scope.

(** An [error] value: [None] is [nil], [Some msg] an error made by
    [errors.New msg]. *)
Definition error : Type := option string.

(** [func divide(a, b int) (result float64, err error)]: the test on [b]
    only sets [err]; the quotient is computed and returned either way. *)
Definition divide (a b : Z) : float64 * error :=
  let err := if b =? 0 then Some "Cannot divide by zero!"%string else None in
  let result := div (of_int a) (of_int b) in
  (result, err).

(** [func square(a int) int]. *)
Definition square (a : Z) : Z := wrap (a * a).

(** The function literal of [idGenerator]: [id++; return id], run on the
    captured variable [id]. *)
Definition next : state Z Z :=
  id <- get ;;
  put (wrap (id + 1)) ;;
  get.

(** A closure value: the captured variable and the code that runs on it. *)
Record closure : Type := mkClosure { id : Z ; body : state Z Z }.

(** [func idGenerator(start int) func() int]. *)
Definition idGenerator (start : Z) : closure :=
  mkClosure (wrap (start - 1)) next.

(** One call [c()]: the value returned and the closure afterwards. *)
Definition call (c : closure) : Z * closure :=
  let (v, id') := runState (body c) (id c) in
  (v, mkClosure id' (body c)).

(** [k] calls in a row: the values returned, in order, and the closure
    afterwards. *)
Fixpoint calls (k : nat) (c : closure) : list Z * closure :=
  match k with
  | O => ([], c)
  | S k' =>
      let (v, c1) := call c in
      let (vs, c2) := calls k' c1 in
      (v :: vs, c2)
  end.

(** The value returned by the [k]-th call, counted from one. *)
Definition kth_call (k : nat) (c : closure) : option Z :=
  match k with
  | O => None
  | S k' => Some (fst (call (snd (calls k' c))))
  end.

(** [func add(nums ...int) int]: the running sum wraps at every step. *)
Definition add (nums : list Z) : Z :=
  fold_left (fun sum num => wrap (sum + num)) nums 0.

(** [result[i] = v] on a slice: [None] is the run-time panic for an index
    out of range. *)
Definition store (result : list Z) (i : nat) (v : Z) : option (list Z) :=
  if (i <? List.length result)%nat
  then Some (firstn i result ++ v :: skipn (S i) result)
  else None.

(** The [for i, val := range nums] loop of [apply], from index [i] on.
    [fn] is any Go function value: it may be a closure that changes
    captured variables, here a state of type [St]. *)
Fixpoint apply_range {St : Type} (fn : Z -> state St Z) (i : nat)
    (nums result : list Z) : state St (option (list Z)) :=
  match nums with
  | [] => ret (Some result)
  | val :: rest =>
      v <- fn val ;;
      match store result i v with
      | Some result' => apply_range fn (S i) rest result'
      | None => ret None
      end
  end.

(** [func apply(nums []int, fn func(int) int) []int]:
    [result := make([]int, len(nums))], then the loop. *)
Definition apply {St : Type} (nums : list Z) (fn : Z -> state St Z)
  : state St (option (list Z)) :=
  apply_range fn 0 nums (repeat 0 (List.length nums)).

(** A function value without captured variables. *)
Definition pure_fn {St : Type} (f : Z -> Z) : Z -> state St Z :=
  fun x => ret (f x).

(** Calling [fn] on each element from left to right and collecting what it
    returns. *)
Fixpoint call_each {St : Type} (fn : Z -> state St Z) (nums : list Z)
  : state St (list Z) :=
  match nums with
  | [] => ret []
  | val :: rest =>
      v <- fn val ;;
      vs <- call_each fn rest ;;
      ret (v :: vs)
  end.


(** The sum of the numbers as integers, without any wrap-around. *)
Definition total (nums : list Z) : Z := fold_right Z.add 0 nums.

End Main.

(* ===================================================================== *)
(** ** The chapters: functions, generics, errors, testing *)
(* ===================================================================== *)

(** Phase 01, "Functions", and the same [Divide] of phases 04 and 10. *)
Module Phase01.
Import Float64.

(** [func divide(a, b float64) (float64, error)]: a zero divisor returns
    [0] and an error before any division. *)
Definition divide (a b : float64) : float64 * Main.error :=
  if eqb b (of_int 0) then (of_int 0, Some "division by zero"%string)
  else (div a b, None).

End Phase01.

(** Phase 03, "Generics". *)
Module Phase03.

(** [constraints.Ordered]: the types with [<]. *)
Class Ordered (T : Type) : Type := { lt : T -> T -> bool }.

#[export] Instance Ordered_int : Ordered Z := {| lt := Z.ltb |}.
#[export] Instance Ordered_float64 : Ordered Float64.float64 :=
  {| lt := Float64.ltb |}.

(** [func Min[T constraints.Ordered](a, b T) T]. *)
Definition Min {T : Type} `{Ordered T} (a b : T) : T :=
  if lt a b then a else b.

(** [func Max[T constraints.Ordered](a, b T) T], with [a > b]. *)
Definition Max {T : Type} `{Ordered T} (a b : T) : T :=
  if lt b a then a else b.

(** [type Stack[T any] struct { elements []T }]. *)
Record Stack (T : Type) : Type := mkStack { elements : list T }.
Arguments mkStack {T} _.
Arguments elements {T} _.

(** [func (s *Stack[T]) Push(v T)]: the stack afterwards. *)
Definition Push {T : Type} (s : Stack T) (v : T) : Stack T :=
  mkStack (elements s ++ [v]).

(** [func (s *Stack[T]) Pop() (T, bool)]: the two results and the stack
    afterwards; [zero] is the zero value of [T]. *)
Definition Pop {T : Type} (zero : T) (s : Stack T) : T * bool * Stack T :=
  match List.length (elements s) with
  | O => (zero, false, s)
  | S n => (nth n (elements s) zero, true, mkStack (firstn n (elements s)))
  end.

(** Pushing the values of a list, first to last. *)
Definition PushAll {T : Type} (s : Stack T) (vs : list T) : Stack T :=
  fold_left Push vs s.

(** [n] calls of [Pop]: the values with [ok = true], in the order they
    came, and the stack afterwards. *)
Fixpoint PopN {T : Type} (zero : T) (n : nat) (s : Stack T)
  : list T * Stack T :=
  match n with
  | O => ([], s)
  | S n' =>
      let '(v, ok, s1) := Pop zero s in
      let (vs, s2) := PopN zero n' s1 in
      ((if ok then [v] else []) ++ vs, s2)
  end.

End Phase03.

(** Phase 04, "Error handling patterns": the retry loop. *)
Module Phase04.
Import GoInt.

(** [time.Second * time.Duration(i+1)], in the [int64] of
    [time.Duration]. *)
Definition backoff (i : Z) : Z := wrap (1000000000 * wrap (i + 1)).

(** The durations slept after [k] failed attempts, latest first. *)
Definition sleeps (k : nat) : list Z :=
  map (fun j => backoff (Z.of_nat j)) (List.rev (seq 0 k)).

Section Retry.

(** The errors [fn] can return, and which of them pass the test
    [errors.As(err, &netErr) && netErr.Timeout()]. *)
Variable E : Type.
Variable is_timeout : E -> bool.

(** What [WithRetry] returns: [nil], an error of [fn] passed on as it is,
    or the [fmt.Errorf("after %d attempts: %w", maxAttempts, lastErr)]. *)
Inductive retry_error : Type :=
| Passed (e : E)
| AfterAttempts (maxAttempts : Z) (lastErr : option E).

(** What a run leaves behind: how often [fn] was called and the
    durations slept, in nanoseconds, latest first. *)
Record trace : Type := mkTrace { calls_made : nat ; slept : list Z }.

(** The loop [for i := 0; i < maxAttempts; i++] from [i] on; [fn n] is
    what the [n]-th call of [fn] (from zero) returns.  [fuel] bounds the
    iterations; the outer [None] is fuel running out. *)
Fixpoint retry_loop (fn : nat -> option E) (maxAttempts : Z) (fuel : nat)
    (i : Z) (lastErr : option E) (t : trace)
  : option (option retry_error * trace) :=
  if i <? maxAttempts then
    match fuel with
    | O => None
    | S fuel' =>
        match fn (calls_made t) with
        | None => Some (None, mkTrace (S (calls_made t)) (slept t))
        | Some err =>
            if is_timeout err
            then retry_loop fn maxAttempts fuel' (wrap (i + 1)) (Some err)
                   (mkTrace (S (calls_made t)) (backoff i :: slept t))
            else Some (Some (Passed err),
                       mkTrace (S (calls_made t)) (slept t))
        end
    end
  else Some (Some (AfterAttempts maxAttempts lastErr), t).

(** [func WithRetry(fn func() error, maxAttempts int) error]. *)
Definition WithRetry (fn : nat -> option E) (maxAttempts : Z)
  : option (option retry_error * trace) :=
  retry_loop fn maxAttempts (Z.to_nat maxAttempts) 0 None (mkTrace 0 []).

(** The first [k] calls of [fn] all fail with a timeout. *)
Definition timeouts (fn : nat -> option E) (k : nat) : Prop :=
  forall j, (j < k)%nat -> exists e, fn j = Some e /\ is_timeout e = true.

(** [lastErr] after [k] failed calls. *)
Definition last_of (fn : nat -> option E) (k : nat) : option E :=
  match k with
  | O => None
  | S j => fn j
  end.

End Retry.

Arguments Passed {E} e.
Arguments AfterAttempts {E} maxAttempts lastErr.
Arguments retry_loop {E} is_timeout fn maxAttempts fuel i lastErr t.
Arguments WithRetry {E} is_timeout fn maxAttempts.
Arguments last_of {E} fn k.
Arguments timeouts {E} is_timeout fn k.

(** A sample [fn]: two timeouts, then success.  Its errors are booleans
    that say whether they are timeouts. *)
Definition script (j : nat) : option bool :=
  if (j <? 2)%nat then Some true else None.

End Phase04.

(** Phase 10, "Testing": [Add] and the two checks of [FuzzAdd]. *)
Module Phase10.
Import GoInt.

(** [func Add(a, b int) int]. *)
Definition Add (a b : Z) : Z := wrap (a + b).

(** The first check of the fuzz target holds: [Add(b, a) == result]. *)
Definition FuzzAdd_commutes (a b : Z) : bool := Add b a =? Add a b.

(** The second check holds: not [a >= 0 && b >= 0 && result < a]. *)
Definition FuzzAdd_not_below (a b : Z) : bool :=
  negb ((0 <=? a) && (0 <=? b) && (Add a b <? a)).

End Phase10.


(* ===================================================================== *)
(** ** Facts on [int] *)
(* ===================================================================== *)

Module GoIntFacts.
Import GoInt.

Lemma wrap_in_range x : in_range (wrap x).
Proof.
  unfold in_range, wrap, minInt, maxInt, intSize.
  pose proof (Z.mod_pos_bound (x - - 2 ^ (64 - 1)) (2 ^ 64) eq_refl).
  change (2 ^ (64 - 1)) with 9223372036854775808 in *.
  change (2 ^ 64) with 18446744073709551616 in *.
  lia.
Qed.

Lemma wrap_id x : in_range x -> wrap x = x.
Proof.
  unfold in_range, wrap, minInt, maxInt, intSize.
  change (2 ^ (64 - 1)) with 9223372036854775808.
  change (2 ^ 64) with 18446744073709551616.
  intros H. rewrite Z.mod_small; lia.
Qed.

(** [wrap] only looks at the residue modulo [2 ^ intSize]. *)
Lemma wrap_wrap_add x y : wrap (wrap x + y) = wrap (x + y).
Proof.
  unfold wrap.
  replace ((x - minInt) mod 2 ^ intSize + minInt + y - minInt)
    with ((x - minInt) mod 2 ^ intSize + y) by lia.
  replace (x + y - minInt) with ((x - minInt) + y) by lia.
  rewrite Z.add_mod_idemp_l; [reflexivity | discriminate].
Qed.

(** A remainder of zero is divisibility, whatever the sign of [n]. *)
Lemma rem_zero_divide n d : d <> 0 -> (rem n d =? 0) = true <-> (d | n).
Proof.
  intros Hd. unfold rem. rewrite Z.eqb_eq. now apply Z.rem_divide.
Qed.

Lemma rem_nonzero_not_divide n d :
  d <> 0 -> (rem n d =? 0) = false <-> ~ (d | n).
Proof.
  intros Hd. rewrite <- (rem_zero_divide n d Hd).
  destruct (rem n d =? 0); split; congruence.
Qed.

(** [Sprint] and [Atoi] are inverse: the text printed for [n] is a
    numeral of [n]. *)
Lemma Atoi_Sprint n : Atoi (Sprint n) = Some n.
Proof.
  unfold Atoi, Sprint.
  rewrite NilZero.isi.
  - simpl. f_equal. apply DecimalZ.of_to.
  - destruct n as [|p|p]; simpl; try discriminate.
    intros [= H]. now apply DecimalPos.Unsigned.to_uint_nonnil in H.
  - destruct n as [|p|p]; simpl; try discriminate.
    intros [= H]. now apply DecimalPos.Unsigned.to_uint_nonnil in H.
Qed.

Lemma Sprint_inj n m : Sprint n = Sprint m -> n = m.
Proof.
  intros H. apply (f_equal Atoi) in H. rewrite !Atoi_Sprint in H.
  now injection H.
Qed.

End GoIntFacts.

(* ===================================================================== *)
(** ** FizzBuzz *)
(* ===================================================================== *)

Module Exercise03Facts.
Import GoInt GoIntFacts Exercise03.
Local Open Scope string_scope.

(** The four arms of the [switch], each with the condition under which it
    is the one taken. *)
Lemma FizzBuzz_arms n :
  ((15 | n) /\ FizzBuzz n = ("FizzBuzz", true)) \/
  (~ (15 | n) /\ (3 | n) /\ FizzBuzz n = ("Fizz", true)) \/
  (~ (15 | n) /\ ~ (3 | n) /\ (5 | n) /\ FizzBuzz n = ("Buzz", true)) \/
  (~ (15 | n) /\ ~ (3 | n) /\ ~ (5 | n) /\ FizzBuzz n = (Sprint n, false)).
Proof.
  unfold FizzBuzz.
  destruct (rem n 15 =? 0)%Z eqn:E15.
  { left. split; [now apply rem_zero_divide in E15 | reflexivity]. }
  apply rem_nonzero_not_divide in E15; [|discriminate].
  destruct (rem n 3 =? 0)%Z eqn:E3.
  { right; left. apply rem_zero_divide in E3; [|discriminate]. auto. }
  apply rem_nonzero_not_divide in E3; [|discriminate].
  destruct (rem n 5 =? 0)%Z eqn:E5.
  { right; right; left. apply rem_zero_divide in E5; [|discriminate]. auto. }
  apply rem_nonzero_not_divide in E5; [|discriminate].
  right; right; right. auto.
Qed.

Lemma divide_15_3 n : (15 | n) -> (3 | n).
Proof. intros [c ->]. exists (c * 5). lia. Qed.

Lemma divide_15_5 n : (15 | n) -> (5 | n).
Proof. intros [c ->]. exists (c * 3). lia. Qed.

Lemma divide_3_5_15 n : (3 | n) -> (5 | n) -> (15 | n).
Proof. intros [a Ha] [b Hb]. exists (2 * b - a). lia. Qed.

(** The decimal text of a number is never one of the three words. *)
Lemma Sprint_not_word n :
  Sprint n <> "FizzBuzz" /\ Sprint n <> "Fizz" /\ Sprint n <> "Buzz".
Proof.
  repeat split; intros H; apply (f_equal Atoi) in H;
    rewrite Atoi_Sprint in H; discriminate H.
Qed.

Example FizzBuzz_9 : FizzBuzz 9 = ("Fizz", true).
Proof. reflexivity. Qed.

Example FizzBuzz_minus_10 : FizzBuzz (-10) = ("Buzz", true).
Proof. reflexivity. Qed.

Example FizzBuzz_minus_7 : FizzBuzz (-7) = ("-7", false).
Proof. reflexivity. Qed.

Example FizzBuzz_maxInt : FizzBuzz maxInt = ("9223372036854775807", false).
Proof. vm_compute. reflexivity. Qed.

(** C1: [FizzBuzz(15)] returns ["FizzBuzz"] as its string result. *)
Theorem FizzBuzz_15 : fst (FizzBuzz 15) = "FizzBuzz".
Proof. reflexivity. Qed.

(** C3: for every integer [n], [FizzBuzz] chooses its string by the
    remainders of [n]: ["FizzBuzz"] when 15 divides [n], otherwise ["Fizz"]
    when 3 divides [n], otherwise ["Buzz"] when 5 divides [n], and otherwise
    the decimal text of [n]. *)
Theorem FizzBuzz_modulus (n : Z) :
  ((15 | n) -> fst (FizzBuzz n) = "FizzBuzz") /\
  (~ (15 | n) -> (3 | n) -> fst (FizzBuzz n) = "Fizz") /\
  (~ (15 | n) -> ~ (3 | n) -> (5 | n) -> fst (FizzBuzz n) = "Buzz") /\
  (~ (15 | n) -> ~ (3 | n) -> ~ (5 | n) ->
   fst (FizzBuzz n) = Sprint n /\ Atoi (fst (FizzBuzz n)) = Some n).
Proof.
  destruct (FizzBuzz_arms n) as [[H15 E]|[[N15 [H3 E]]|[[N15 [N3 [H5 E]]]|[N15 [N3 [N5 E]]]]]];
    rewrite E; cbn [fst]; repeat split; intros; try tauto.
  apply Atoi_Sprint.
Qed.

(** C6: for every integer [n], [wasModified] is true exactly when 3 or 5
    divides [n]; when it is false the string is the decimal text of [n],
    which reads back as [n]; and [FizzBuzz(0)] is [("FizzBuzz", true)]. *)
Theorem FizzBuzz_wasModified (n : Z) :
  (snd (FizzBuzz n) = true <-> (3 | n) \/ (5 | n)) /\
  (snd (FizzBuzz n) = false ->
   fst (FizzBuzz n) = Sprint n /\ Atoi (fst (FizzBuzz n)) = Some n) /\
  FizzBuzz 0 = ("FizzBuzz", true).
Proof.
  split; [|split; [|reflexivity]].
  - destruct (FizzBuzz_arms n) as [[H15 E]|[[N15 [H3 E]]|[[N15 [N3 [H5 E]]]|[N15 [N3 [N5 E]]]]]];
      rewrite E; cbn [snd]; split; intros H; auto; try discriminate.
    + left. now apply divide_15_3.
    + tauto.
  - destruct (FizzBuzz_arms n) as [[H15 E]|[[N15 [H3 E]]|[[N15 [N3 [H5 E]]]|[N15 [N3 [N5 E]]]]]];
      rewrite E; cbn [fst snd]; intros H; try discriminate.
    split; [reflexivity | apply Atoi_Sprint].
Qed.

End Exercise03Facts.

(* ===================================================================== *)
(** ** binary64 constants *)
(* ===================================================================== *)

Module Float64Facts.
Import Float64.

(** The constant [0]. *)
Lemma of_int_0 : of_int 0 = S754_zero false.
Proof. reflexivity. Qed.

(** [32] is a binary64 number: [2 ^ 52 * 2 ^ -47]. *)
Lemma of_int_32 : of_int 32 = S754_finite false (2 ^ 52) (-47).
Proof. vm_compute. reflexivity. Qed.

(** [c273_15] is what rounding 27315/100 to binary64 gives. *)
Lemma c273_15_rounded : c273_15 = div (of_int 27315) (of_int 100).
Proof. vm_compute. reflexivity. Qed.

(** It is a normal number of full precision, within half a unit in the
    last place ([2 ^ -45]) of 27315/100; written without fractions:
    [|100 * m - 27315 * 2 ^ 44| * 2 <= 100]. *)
Lemma c273_15_nearest :
  valid_binary prec emax c273_15 = true /\
  SFclassify prec c273_15 = FloatClass.PNormal /\
  Z.abs (100 * 0x11126666666666 - 27315 * 2 ^ 44) * 2 <= 100.
Proof. vm_compute. repeat split; discriminate. Qed.

(** [9/5] and [5/9] as computed. *)
Lemma nineOverFive_bits :
  Exercises.nineOverFive = S754_finite false 0x1ccccccccccccd (-52).
Proof. vm_compute. reflexivity. Qed.

Lemma fiveOverNine_bits :
  Exercises.fiveOverNine = S754_finite false 0x11c71c71c71c72 (-53).
Proof. vm_compute. reflexivity. Qed.

(** Dividing by the constant zero never gives a finite number. *)
Lemma div_zero_not_finite x : is_finite (div x (of_int 0)) = false.
Proof. destruct x as [s|s| |s m e]; reflexivity. Qed.

End Float64Facts.

(* ===================================================================== *)
(** ** TempConvertor *)
(* ===================================================================== *)

Module ExercisesFacts.
Import Float64 Float64Facts Exercises.

Example boiling_point :
  TempConvertor (of_int 100) Celsius
  = (of_int 100, of_int 212, div (of_int 37315) (of_int 100)).
Proof. vm_compute. reflexivity. Qed.

Example boiling_point_from_fahrenheit :
  TempConvertor (of_int 212) Fahrenheit
  = (of_int 100, of_int 212, div (of_int 37315) (of_int 100)).
Proof. vm_compute. reflexivity. Qed.

(** C2: [TempConvertor(0, Celsius)] returns
    [(celsius, fahrenheit, kelvin) = (0, 32, 273.15)]: the positive zero,
    the number 32, and the binary64 number nearest to 273.15, which lies
    within half a unit in the last place ([2 ^ -45]) of 27315/100. *)
Theorem TempConvertor_0_Celsius :
  TempConvertor (of_int 0) Celsius = (of_int 0, of_int 32, c273_15) /\
  TempConvertor (of_int 0) Celsius
  = (S754_zero false,
     S754_finite false 4503599627370496 (-47),
     S754_finite false 4805305618032230 (-44)) /\
  (F2Q (S754_finite false 4503599627370496 (-47)) == 32)%Q /\
  (Qabs (F2Q (S754_finite false 4805305618032230 (-44)) - (27315 # 100))
   <= 1 # 2 ^ 45)%Q.
Proof.
  split; [vm_compute; reflexivity |].
  split; [vm_compute; reflexivity |].
  split; [vm_compute; reflexivity |].
  unfold Qle. vm_compute. discriminate.
Qed.

(** C7: for every [temp] and every mode other than [Celsius] (0),
    [Fahrenheit] (1) and [Kelvin] (2), [TempConvertor] returns
    [(0, 0, 0)]. *)
Theorem TempConvertor_default (temp : float64) (mode : Temp) :
  mode <> Celsius -> mode <> Fahrenheit -> mode <> Kelvin ->
  TempConvertor temp mode = (of_int 0, of_int 0, of_int 0).
Proof.
  intros HC HF HK. unfold TempConvertor.
  apply Z.eqb_neq in HC, HF, HK. now rewrite HC, HF, HK.
Qed.

Lemma TempConvertor_default_witness :
  is_uint8 3 /\
  TempConvertor (of_int 100) 3 = (of_int 0, of_int 0, of_int 0).
Proof.
  split.
  - unfold is_uint8. lia.
  - apply (TempConvertor_default (of_int 100) 3); discriminate.
Defined.

End ExercisesFacts.

(* ===================================================================== *)
(** ** divide and idGenerator *)
(* ===================================================================== *)

Module MainFacts.
Import GoInt GoIntFacts Float64 Float64Facts Main.

Example divide_1_2 : divide 1 2 = (S754_finite false (2 ^ 52) (-53), None).
Proof. vm_compute. reflexivity. Qed.

Example divide_by_zero :
  divide 1 0 = (S754_infinity false, Some "Cannot divide by zero!"%string) /\
  divide (-1) 0 = (S754_infinity true, Some "Cannot divide by zero!"%string) /\
  divide 0 0 = (S754_nan, Some "Cannot divide by zero!"%string).
Proof. vm_compute. repeat split. Qed.

(** C8: for all integers [a] and [b], [divide(a, b)] returns a non-nil
    error exactly when [b = 0]; for [b <> 0] the error is nil and the result
    is [float64(a) / float64(b)]; for [b = 0] the quotient is still computed
    and returned beside the error, and it is not finite. *)
Theorem divide_error_iff (a b : Z) :
  (snd (divide a b) <> None <-> b = 0) /\
  (b <> 0 ->
     snd (divide a b) = None /\
     fst (divide a b) = div (of_int a) (of_int b)) /\
  (b = 0 ->
     snd (divide a b) = Some "Cannot divide by zero!"%string /\
     fst (divide a b) = div (of_int a) (of_int 0) /\
     is_finite (fst (divide a b)) = false).
Proof.
  unfold divide; cbn [fst snd].
  destruct (Z.eqb_spec b 0) as [-> | Hb].
  - repeat split; try congruence; intros; try discriminate.
    apply div_zero_not_finite.
  - repeat split; try congruence; intros; try contradiction.
Qed.

(** One call of the function literal: the captured variable goes up by
    one, wrapping, and its new value is what the call returns. *)
Lemma call_next x :
  call (mkClosure x next)
  = (wrap (x + 1), mkClosure (wrap (x + 1)) next).
Proof. reflexivity. Qed.

(** After [k] calls the captured variable has gone up by [k], wrapping. *)
Lemma calls_state k : forall x,
  snd (calls k (mkClosure (wrap x) next))
  = mkClosure (wrap (x + Z.of_nat k)) next.
Proof.
  induction k as [|k IH]; intros x.
  - cbn [calls snd]. now rewrite Z.add_0_r.
  - cbn [calls]. rewrite call_next, wrap_wrap_add.
    specialize (IH (x + 1)).
    destruct (calls k (mkClosure (wrap (x + 1)) next)) as [vs c2].
    cbn [snd] in *. rewrite IH. do 2 f_equal. lia.
Qed.

(** The [k]-th call returns the wrapped [start + k - 1]. *)
Lemma kth_call_wrap start k :
  (1 <= k)%nat ->
  kth_call k (idGenerator start) = Some (wrap (start + Z.of_nat k - 1)).
Proof.
  destruct k as [|k]; [lia | intros _].
  unfold kth_call, idGenerator. rewrite calls_state, call_next.
  cbn [fst]. rewrite wrap_wrap_add. do 2 f_equal. lia.
Qed.

(** The values of [k] calls in a row are those of the single calls. *)
Lemma calls_nth k : forall c n,
  (n < k)%nat -> nth_error (fst (calls k c)) n = kth_call (S n) c.
Proof.
  induction k as [|k IH]; intros c n Hn; [lia|].
  cbn [calls]. destruct (call c) as [v c1] eqn:Ec.
  specialize (IH c1). destruct (calls k c1) as [vs c2] eqn:Ecs.
  destruct n as [|n].
  - cbn. now rewrite Ec.
  - cbn [fst nth_error]. cbn [fst] in IH. rewrite IH by lia.
    unfold kth_call. cbn [calls]. rewrite Ec.
    now destruct (calls n c1).
Qed.

Example main_count : fst (calls 2 (idGenerator 1)) = [1; 2].
Proof. reflexivity. Qed.

(** C5, as the code has it: for every [int] [start], the first call of
    [idGenerator(start)] returns [start]; for every [k >= 1] the [k]-th call
    returns [start + k - 1] wrapped into the range of [int], which is
    [start + k - 1] itself as long as that does not exceed [maxInt]; each
    call adds one (wrapping) to the captured variable and returns it. *)
Theorem idGenerator_kth (start : Z) (k : nat) :
  in_range start -> (1 <= k)%nat ->
  kth_call 1 (idGenerator start) = Some start /\
  kth_call k (idGenerator start) = Some (wrap (start + Z.of_nat k - 1)) /\
  (start + Z.of_nat k - 1 <= maxInt ->
   kth_call k (idGenerator start) = Some (start + Z.of_nat k - 1)) /\
  nth_error (fst (calls k (idGenerator start))) (k - 1)
  = kth_call k (idGenerator start) /\
  (forall c, body c = next ->
     id (snd (call c)) = wrap (id c + 1) /\
     fst (call c) = id (snd (call c))).
Proof.
  intros Hs Hk. repeat split.
  - rewrite kth_call_wrap by lia. f_equal.
    replace (start + Z.of_nat 1 - 1) with start by lia. now apply wrap_id.
  - now apply kth_call_wrap.
  - intros Hmax. rewrite kth_call_wrap by assumption. f_equal.
    apply wrap_id. unfold in_range in *. lia.
  - rewrite calls_nth by lia. f_equal. lia.
  - destruct c as [x b]. cbn [body] in H. subst b. now rewrite call_next.
  - destruct c as [x b]. cbn [body] in H. subst b. now rewrite call_next.
Qed.

Lemma idGenerator_kth_witness :
  in_range 7 /\ (1 <= 3)%nat /\
  kth_call 3 (idGenerator 7) = Some (7 + Z.of_nat 3 - 1).
Proof.
  split; [|split].
  - unfold in_range, minInt, maxInt, intSize. simpl. lia.
  - lia.
  - assert (H7 : in_range 7)
      by (unfold in_range, minInt, maxInt, intSize; simpl; lia).
    assert (H13 : (1 <= 3)%nat) by lia.
    destruct (idGenerator_kth 7 3 H7 H13) as [_ [_ [H _]]].
    apply H. unfold maxInt, intSize. simpl. lia.
Defined.

(** C5 as worded fails where [start + k - 1] leaves the range of [int]:
    the second call of [idGenerator(maxInt)] returns [minInt], not
    [maxInt + 1]. *)
Lemma idGenerator_overflow :
  in_range maxInt /\
  kth_call 1 (idGenerator maxInt) = Some maxInt /\
  kth_call 2 (idGenerator maxInt) = Some minInt /\
  kth_call 2 (idGenerator maxInt) <> Some (maxInt + Z.of_nat 2 - 1).
Proof.
  unfold in_range. vm_compute. repeat split; discriminate.
Qed.

End MainFacts.

(* ===================================================================== *)
(** ** FizzBuzz: what the two results tell a caller *)
(* ===================================================================== *)

Module Exercise03More.
Import GoInt GoIntFacts Exercise03 Exercise03Facts.
Local Open Scope string_scope.

(** The three words belong to the divisibility classes of [n] by 3 and by
    5, and to nothing else: the string is ["FizzBuzz"] exactly when both
    divide [n], ["Fizz"] exactly when only 3 does, ["Buzz"] exactly when
    only 5 does. *)
Theorem FizzBuzz_words (n : Z) :
  (fst (FizzBuzz n) = "FizzBuzz" <-> (3 | n) /\ (5 | n)) /\
  (fst (FizzBuzz n) = "Fizz" <-> (3 | n) /\ ~ (5 | n)) /\
  (fst (FizzBuzz n) = "Buzz" <-> (5 | n) /\ ~ (3 | n)).
Proof.
  pose proof (divide_15_3 n) as H153.
  pose proof (divide_15_5 n) as H155.
  pose proof (divide_3_5_15 n) as H35.
  destruct (Sprint_not_word n) as [S1 [S2 S3]].
  destruct (FizzBuzz_arms n)
    as [[H15 E]|[[N15 [H3 E]]|[[N15 [N3 [H5 E]]]|[N15 [N3 [N5 E]]]]]];
    rewrite E; cbn [fst]; (split; [|split]); split; intros W;
    try discriminate W; try tauto.
Qed.

(** [wasModified] can be read off the string, and the other way round: it
    is true exactly when the string is one of the three words.  The
    decimal text of a number is never one of them. *)
Theorem FizzBuzz_flag_is_word (n : Z) :
  snd (FizzBuzz n) = true <->
  (fst (FizzBuzz n) = "FizzBuzz" \/ fst (FizzBuzz n) = "Fizz" \/
   fst (FizzBuzz n) = "Buzz").
Proof.
  destruct (Sprint_not_word n) as [S1 [S2 S3]].
  destruct (FizzBuzz_arms n)
    as [[H15 E]|[[N15 [H3 E]]|[[N15 [N3 [H5 E]]]|[N15 [N3 [N5 E]]]]]];
    rewrite E; cbn [fst snd]; split; intros W; auto; try discriminate W.
  destruct W as [W | [W | W]]; contradiction.
Qed.

(** Two numbers that 3 and 5 divide alike get the same flag, and the same
    word when there is one. *)
Lemma FizzBuzz_same_class n n' :
  ((3 | n') <-> (3 | n)) -> ((5 | n') <-> (5 | n)) ->
  snd (FizzBuzz n') = snd (FizzBuzz n) /\
  (snd (FizzBuzz n) = true -> FizzBuzz n' = FizzBuzz n).
Proof.
  intros H3 H5.
  pose proof (divide_15_3 n). pose proof (divide_15_5 n).
  pose proof (divide_3_5_15 n).
  pose proof (divide_15_3 n'). pose proof (divide_15_5 n').
  pose proof (divide_3_5_15 n').
  destruct (FizzBuzz_arms n)
    as [[A15 E]|[[A15 [A3 E]]|[[A15 [A3 [A5 E]]]|[A15 [A3 [A5 E]]]]]];
  destruct (FizzBuzz_arms n')
    as [[B15 E']|[[B15 [B3 E']]|[[B15 [B3 [B5 E']]]|[B15 [B3 [B5 E']]]]]];
    rewrite E, E'; cbn [fst snd];
    try (exfalso; tauto);
    (split; [reflexivity | intros W; try reflexivity; discriminate W]).
Qed.

(** The pattern has period 15 and does not depend on the sign: [n + 15 * k]
    and [- n] get the flag of [n], and the word of [n] when [n] has one. *)
Theorem FizzBuzz_period_and_sign (n k : Z) :
  (snd (FizzBuzz (n + 15 * k)) = snd (FizzBuzz n) /\
   (snd (FizzBuzz n) = true -> FizzBuzz (n + 15 * k) = FizzBuzz n)) /\
  (snd (FizzBuzz (- n)) = snd (FizzBuzz n) /\
   (snd (FizzBuzz n) = true -> FizzBuzz (- n) = FizzBuzz n)).
Proof.
  split; apply FizzBuzz_same_class.
  - replace (15 * k) with (3 * (5 * k)) by lia. split; intros [c Hc].
    + exists (c - 5 * k). lia.
    + exists (c + 5 * k). lia.
  - replace (15 * k) with (5 * (3 * k)) by lia. split; intros [c Hc].
    + exists (c - 3 * k). lia.
    + exists (c + 3 * k). lia.
  - apply Z.divide_opp_r.
  - apply Z.divide_opp_r.
Qed.

(** A string that came with [wasModified = false] names its number: no
    other input gives the same string. *)
Theorem FizzBuzz_unmodified_inj (n m : Z) :
  snd (FizzBuzz n) = false ->
  fst (FizzBuzz m) = fst (FizzBuzz n) ->
  m = n.
Proof.
  intros Hn Hm.
  destruct (Sprint_not_word n) as [S1 [S2 S3]].
  destruct (FizzBuzz_arms n)
    as [[A15 E]|[[A15 [A3 E]]|[[A15 [A3 [A5 E]]]|[A15 [A3 [A5 E]]]]]];
    rewrite E in Hn, Hm; cbn [fst snd] in Hn, Hm; try discriminate Hn.
  destruct (FizzBuzz_arms m)
    as [[B15 E']|[[B15 [B3 E']]|[[B15 [B3 [B5 E']]]|[B15 [B3 [B5 E']]]]]];
    rewrite E' in Hm; cbn [fst] in Hm; try (symmetry in Hm; contradiction).
  now apply Sprint_inj.
Qed.

Lemma FizzBuzz_unmodified_inj_witness :
  snd (FizzBuzz 7) = false /\ fst (FizzBuzz 7) = fst (FizzBuzz 7) /\ 7 = 7.
Proof.
  split; [reflexivity | split; [reflexivity |]].
  apply (FizzBuzz_unmodified_inj 7 7); reflexivity.
Defined.

End Exercise03More.

(* ===================================================================== *)
(** ** TempConvertor: special values, the default result, round trips *)
(* ===================================================================== *)

Module ExercisesMore.
Import Float64 Float64Facts Exercises.
Local Open Scope bool_scope.

(** An infinity or a NaN given as [temp] comes back on all three scales,
    whichever valid mode is used. *)
Theorem TempConvertor_not_finite (temp : float64) (mode : Temp) :
  mode = Celsius \/ mode = Fahrenheit \/ mode = Kelvin ->
  is_finite temp = false ->
  TempConvertor temp mode = (temp, temp, temp).
Proof.
  intros [-> | [-> | ->]] Hf;
    destruct temp as [s | [|] | | s m e]; try discriminate Hf;
    vm_compute; reflexivity.
Qed.

Lemma TempConvertor_not_finite_witness :
  (Fahrenheit = Celsius \/ Fahrenheit = Fahrenheit \/ Fahrenheit = Kelvin) /\
  is_finite (S754_infinity true) = false /\
  TempConvertor (S754_infinity true) Fahrenheit
  = (S754_infinity true, S754_infinity true, S754_infinity true).
Proof.
  split; [right; left; reflexivity | split; [reflexivity |]].
  apply (TempConvertor_not_finite (S754_infinity true) Fahrenheit);
    [right; left; reflexivity | reflexivity].
Defined.

(** Only a zero is [==] to the constant zero. *)
Lemma eqb_zero_inv x : eqb x (of_int 0) = true -> exists s, x = S754_zero s.
Proof.
  destruct x as [s | s | | s m e]; cbn; intros H; try discriminate H.
  - now exists s.
  - destruct s; discriminate H.
  - destruct s; discriminate H.
Qed.

(** The triple [(0, 0, 0)] of the default arm is never the result of a
    valid mode: whatever [temp] is, one of the three results differs from
    zero under [==]. *)
Theorem TempConvertor_valid_not_all_zero (temp : float64) (mode : Temp) :
  mode = Celsius \/ mode = Fahrenheit \/ mode = Kelvin ->
  eqb (celsius_of (TempConvertor temp mode)) (of_int 0)
  && eqb (fahrenheit_of (TempConvertor temp mode)) (of_int 0)
  && eqb (kelvin_of (TempConvertor temp mode)) (of_int 0) = false.
Proof.
  intros Hmode.
  destruct (eqb temp (of_int 0)) eqn:Ez.
  - apply eqb_zero_inv in Ez. destruct Ez as [s ->].
    destruct Hmode as [-> | [-> | ->]]; destruct s; vm_compute; reflexivity.
  - destruct Hmode as [-> | [-> | ->]];
      unfold TempConvertor, celsius_of, fahrenheit_of, kelvin_of;
      cbn [Z.eqb Pos.eqb Celsius Fahrenheit Kelvin fst snd]; rewrite Ez.
    + reflexivity.
    + now rewrite Bool.andb_false_r.
    + now rewrite Bool.andb_false_r.
Qed.

Lemma TempConvertor_valid_not_all_zero_witness :
  (Kelvin = Celsius \/ Kelvin = Fahrenheit \/ Kelvin = Kelvin) /\
  eqb (celsius_of (TempConvertor (of_int 0) Kelvin)) (of_int 0)
  && eqb (fahrenheit_of (TempConvertor (of_int 0) Kelvin)) (of_int 0)
  && eqb (kelvin_of (TempConvertor (of_int 0) Kelvin)) (of_int 0) = false.
Proof.
  split; [right; right; reflexivity |].
  apply (TempConvertor_valid_not_all_zero (of_int 0) Kelvin).
  right; right; reflexivity.
Defined.

(** A check that holds on every element of the interval from [lo] to
    [hi] holds on every integer between them. *)
Lemma interval_forallb (p : Z -> bool) lo hi :
  forallb p (interval lo (Z.to_nat (hi - lo + 1))) = true ->
  forall z, lo <= z <= hi -> p z = true.
Proof.
  intros H z Hz. rewrite forallb_forall in H. apply H.
  unfold interval. apply in_map_iff.
  exists (Z.to_nat (z - lo)). split; [lia | apply in_seq; lia].
Qed.

(** Round trip from Kelvin: for every whole number of kelvins from 0 to
    5000, converting to Celsius and the result back to Kelvin returns the
    start exactly. *)
Theorem kelvin_round_trip (k : Z) :
  0 <= k <= 5000 -> kelvin_there_and_back k = true.
Proof.
  apply (interval_forallb kelvin_there_and_back 0 5000).
  vm_compute. reflexivity.
Qed.

Lemma kelvin_round_trip_witness :
  0 <= 300 <= 5000 /\ kelvin_there_and_back 300 = true.
Proof.
  split; [lia | apply (kelvin_round_trip 300); lia].
Defined.

(** Round trip from Celsius through Kelvin: exact for every whole degree
    from -273 to 750, and no longer at 751, where [celsius + 273.15]
    passes 1024 and loses a binary digit. *)
Theorem celsius_round_trip (c : Z) :
  -273 <= c <= 750 ->
  celsius_there_and_back c = true /\ celsius_there_and_back 751 = false.
Proof.
  intros Hc. split.
  - apply (interval_forallb celsius_there_and_back (-273) 750);
      [vm_compute; reflexivity | exact Hc].
  - vm_compute. reflexivity.
Qed.

Lemma celsius_round_trip_witness :
  -273 <= 100 <= 750 /\
  celsius_there_and_back 100 = true /\ celsius_there_and_back 751 = false.
Proof.
  split; [lia | apply (celsius_round_trip 100); lia].
Defined.

End ExercisesMore.

(* ===================================================================== *)
(** ** binary64 rounding of integers and of their quotients *)
(* ===================================================================== *)

Module Float64Round.
Import Float64.

Lemma iter_pos_nat {A} (f : A -> A) p : forall x,
  iter_pos f p x = Nat.iter (Pos.to_nat p) f x.
Proof.
  induction p as [p IH|p IH|]; intros x; cbn [iter_pos].
  - rewrite !IH.
    replace (Pos.to_nat p~1) with (S (Pos.to_nat p + Pos.to_nat p)) by lia.
    now rewrite Nat.iter_succ_r, Nat.iter_add.
  - rewrite !IH.
    replace (Pos.to_nat p~0) with (Pos.to_nat p + Pos.to_nat p)%nat by lia.
    now rewrite Nat.iter_add.
  - reflexivity.
Qed.

Lemma shr_1_m mrs : 0 <= shr_m mrs -> shr_m (shr_1 mrs) = shr_m mrs / 2.
Proof.
  destruct mrs as [m r s]. cbn [shr_m]. intros Hm.
  rewrite <- Z.div2_div.
  destruct m as [|[p|p|]|p]; try reflexivity; lia.
Qed.

Lemma shr_iter_m n : forall mrs, 0 <= shr_m mrs ->
  shr_m (Nat.iter n shr_1 mrs) = shr_m mrs / 2 ^ Z.of_nat n.
Proof.
  induction n as [|n IH]; intros mrs Hm.
  - cbn. now rewrite Z.div_1_r.
  - change (Nat.iter (S n) shr_1 mrs) with (shr_1 (Nat.iter n shr_1 mrs)).
    rewrite shr_1_m; rewrite IH by assumption.
    + rewrite Nat2Z.inj_succ, Z.pow_succ_r by lia.
      rewrite Z.div_div by lia. f_equal. lia.
    + apply Z.div_pos; lia.
Qed.

Lemma digits2_size p : digits2_pos p = Pos.size p.
Proof. induction p; cbn; congruence. Qed.

(** [2 ^ (d - 1) <= p < 2 ^ d] for [d] the number of binary digits. *)
Lemma digits2_bounds p :
  2 ^ (Z.pos (digits2_pos p) - 1) <= Z.pos p < 2 ^ Z.pos (digits2_pos p).
Proof.
  rewrite digits2_size. split.
  - pose proof (Pos.size_le p) as H.
    apply Pos2Z.pos_le_pos in H. rewrite Pos2Z.inj_pow in H.
    change (Z.pos p~0) with (2 * Z.pos p) in H.
    replace (Z.pos (Pos.size p)) with (Z.succ (Z.pos (Pos.size p) - 1)) in H by lia.
    rewrite Z.pow_succ_r in H by lia. lia.
  - pose proof (Pos.size_gt p) as H.
    apply Pos2Z.pos_lt_pos in H. now rewrite Pos2Z.inj_pow in H.
Qed.

Lemma Zdigits2_bounds x : 0 < x ->
  0 < Zdigits2 x /\ 2 ^ (Zdigits2 x - 1) <= x < 2 ^ Zdigits2 x.
Proof.
  destruct x as [|p|p]; try lia. intros _. cbn [Zdigits2].
  split; [lia | apply digits2_bounds].
Qed.

(** Shifting as [shr_fexp] does it, for a positive mantissa and an exponent
    above the subnormal range: the mantissa loses the digits beyond 53. *)
Lemma shr_fexp_pos x e l : 0 < x -> -1074 <= e ->
  let k := Z.max 0 (Zdigits2 x - 53) in
  snd (shr_fexp prec emax x e l) = e + k /\
  shr_m (fst (shr_fexp prec emax x e l)) = x / 2 ^ k /\
  0 < x / 2 ^ k.
Proof.
  intros Hx He k.
  destruct (Zdigits2_bounds x Hx) as [Hd [Hlo Hhi]].
  unfold shr_fexp, fexp, emin, prec, emax.
  set (d := Zdigits2 x) in *.
  assert (Hpos : 0 < x / 2 ^ k).
  { apply Z.div_str_pos. split; [apply Z.pow_pos_nonneg; lia|].
    eapply Z.le_trans; [|exact Hlo]. apply Z.pow_le_mono_r; lia. }
  assert (Hrec : shr_m (shr_record_of_loc x l) = x)
    by (destruct l as [|[]]; reflexivity).
  destruct (Z.max (d + e - 53) (3 - 1024 - 53) - e) as [|n|n] eqn:En;
    cbn [shr fst snd].
  - assert (Hk : k = 0) by lia. rewrite Hk in *.
    rewrite Hrec, Z.div_1_r in *. repeat split; lia.
  - assert (Hk : k = Z.pos n) by lia. rewrite Hk in *.
    rewrite iter_pos_nat, shr_iter_m, positive_nat_Z, Hrec by lia.
    repeat split; lia.
  - assert (Hk : k = 0) by lia. rewrite Hk in *.
    rewrite Hrec, Z.div_1_r in *. repeat split; lia.
Qed.

Lemma Zdigits2_le x b : 0 < x -> 0 <= b -> x < 2 ^ b -> Zdigits2 x <= b.
Proof.
  intros Hx Hb Hlt. destruct (Zdigits2_bounds x Hx) as [Hd [Hlo _]].
  destruct (Z_le_gt_dec (Zdigits2 x) b) as [|Hgt]; [assumption|].
  assert (2 ^ b <= 2 ^ (Zdigits2 x - 1)) by (apply Z.pow_le_mono_r; lia).
  lia.
Qed.

Lemma round_nearest_even_bounds q l :
  q <= round_nearest_even q l <= q + 1.
Proof.
  destruct l as [|[]]; cbn [round_nearest_even]; try lia.
  destruct (Z.even q); lia.
Qed.

Lemma Zdigits2_unique x n :
  0 < n -> 2 ^ (n - 1) <= x < 2 ^ n -> Zdigits2 x = n.
Proof.
  intros Hn [Hlo Hhi].
  assert (Hx : 0 < x).
  { assert (0 < 2 ^ (n - 1)) by (apply Z.pow_pos_nonneg; lia). lia. }
  destruct (Zdigits2_bounds x Hx) as [Hd [Dlo Dhi]].
  destruct (Z.lt_trichotomy (Zdigits2 x) n) as [Hlt | [Heq | Hgt]];
    [exfalso | assumption | exfalso].
  - assert (2 ^ Zdigits2 x <= 2 ^ (n - 1)) by (apply Z.pow_le_mono_r; lia). lia.
  - assert (2 ^ n <= 2 ^ (Zdigits2 x - 1)) by (apply Z.pow_le_mono_r; lia). lia.
Qed.

Lemma pos_iter_xO p k : Z.pos (Pos.iter xO p k) = Z.pos p * 2 ^ Z.pos k.
Proof.
  induction k as [|k IH] using Pos.peano_ind.
  - cbn. lia.
  - rewrite Pos.iter_succ, Pos2Z.inj_xO, IH, Pos2Z.inj_succ, Z.pow_succ_r; lia.
Qed.

(** Rounding a mantissa of at least 53 digits, with an exponent far from
    both ends of the range, gives a normal number: 53 digits exactly, the
    sign asked for, and an exponent raised by the digits dropped. *)
Lemma binary_round_aux_normal s x e l :
  2 ^ 52 <= x < 2 ^ 200 -> -1074 <= e <= 100 ->
  exists m e',
    binary_round_aux prec emax s x e l = S754_finite s m e' /\
    2 ^ 52 <= Z.pos m < 2 ^ 53 /\
    e + (Zdigits2 x - 53) <= e' <= e + (Zdigits2 x - 53) + 1.
Proof.
  intros [Hlo Hb] [He He0]. unfold binary_round_aux.
  assert (Hx : 0 < x) by (change (2 ^ 52) with 4503599627370496 in Hlo; lia).
  destruct (shr_fexp_pos x e l Hx He) as [E1 [M1 P1]].
  destruct (Zdigits2_bounds x Hx) as [_ [Dlo Dhi]].
  pose proof (Zdigits2_le x 200 Hx ltac:(lia) Hb) as Hd.
  assert (Hd53 : 53 <= Zdigits2 x).
  { destruct (Z_le_gt_dec 53 (Zdigits2 x)) as [|Hgt]; [assumption|].
    assert (2 ^ Zdigits2 x <= 2 ^ 52) by (apply Z.pow_le_mono_r; lia). lia. }
  destruct (shr_fexp prec emax x e l) as [mrs' e'].
  cbn [fst snd] in E1, M1.
  replace (Z.max 0 (Zdigits2 x - 53)) with (Zdigits2 x - 53) in * by lia.
  set (k := Zdigits2 x - 53) in *.
  assert (Hk : 0 < 2 ^ k) by (apply Z.pow_pos_nonneg; lia).
  assert (Hq1 : 2 ^ 52 <= x / 2 ^ k < 2 ^ 53).
  { split.
    - apply Z.div_le_lower_bound; [assumption|].
      rewrite <- Z.pow_add_r by lia.
      replace (k + 52) with (Zdigits2 x - 1) by lia. assumption.
    - apply Z.div_lt_upper_bound; [assumption|].
      rewrite <- Z.pow_add_r by lia.
      replace (k + 53) with (Zdigits2 x) by lia. assumption. }
  pose proof (round_nearest_even_bounds (shr_m mrs') (loc_of_shr_record mrs')) as Hr.
  set (q2 := round_nearest_even (shr_m mrs') (loc_of_shr_record mrs')) in *.
  rewrite M1 in Hr.
  assert (Hq2 : 0 < q2) by (change (2 ^ 52) with 4503599627370496 in Hq1; lia).
  destruct (shr_fexp_pos q2 e' loc_Exact Hq2 ltac:(lia)) as [E2 [M2 P2]].
  destruct (shr_fexp prec emax q2 e' loc_Exact) as [mrs'' e''].
  cbn [fst snd] in E2, M2. rewrite M2.
  destruct (Z_lt_le_dec q2 (2 ^ 53)) as [Hlt | Hge].
  - rewrite (Zdigits2_unique q2 53) in * by (change (53 - 1) with 52; lia).
    change (Z.max 0 (53 - 53)) with 0 in *. rewrite Z.div_1_r in *.
    destruct q2 as [|m|m]; try lia.
    replace (e'' <=? emax - prec) with true
      by (symmetry; apply Z.leb_le; unfold emax, prec; lia).
    exists m, e''. repeat split; lia.
  - assert (Heq : q2 = 2 ^ 53) by lia. rewrite Heq in *.
    change (Z.max 0 (Zdigits2 (2 ^ 53) - 53)) with 1 in *.
    change (2 ^ 53 / 2 ^ 1) with (Z.pos (2 ^ 52)).
    replace (e'' <=? emax - prec) with true
      by (symmetry; apply Z.leb_le; unfold emax, prec; lia).
    exists (2 ^ 52)%positive, e''. repeat split; try lia; reflexivity.
Qed.

(** Rounding the integer [p], as [float64(p)] does: a normal number whose
    exponent lies in [-52 .. 12]. *)
Lemma binary_round_normal s p :
  Z.pos p < 2 ^ 64 ->
  exists m e,
    binary_round prec emax s p 0 = S754_finite s m e /\
    2 ^ 52 <= Z.pos m < 2 ^ 53 /\ -52 <= e <= 12.
Proof.
  intros Hp. unfold binary_round, shl_align, fexp, emin, prec, emax.
  destruct (digits2_bounds p) as [Hlo Hhi].
  pose proof (Zdigits2_le (Z.pos p) 64 eq_refl ltac:(lia) Hp) as Hd.
  cbn [Zdigits2] in Hd.
  set (d := Z.pos (digits2_pos p)) in *.
  assert (Hf : Z.max (d + 0 - 53) (3 - 1024 - 53) = d - 53) by lia.
  rewrite Hf.
  assert (H64 : 2 ^ 64 < 2 ^ 200) by reflexivity.
  destruct (d - 53 - 0) as [|n|n] eqn:En.
  - assert (Hd53 : d = 53) by lia.
    destruct (binary_round_aux_normal s (Z.pos p) 0 loc_Exact) as [m [e [E [Hm He]]]];
      [rewrite Hd53 in Hlo; change (53 - 1) with 52 in Hlo; lia | lia |].
    cbn [Zdigits2] in He. fold d in He.
    exists m, e. repeat split; try assumption; lia.
  - destruct (binary_round_aux_normal s (Z.pos p) 0 loc_Exact) as [m [e [E [Hm He]]]];
      [|lia|].
    + split; [|lia]. eapply Z.le_trans; [|exact Hlo].
      apply Z.pow_le_mono_r; lia.
    + cbn [Zdigits2] in He. fold d in He.
      exists m, e. repeat split; try assumption; lia.
  - assert (Hn : Z.pos n = 53 - d) by lia.
    assert (Hmz : 2 ^ 52 <= Z.pos (Pos.iter xO p n) < 2 ^ 53).
    { rewrite pos_iter_xO, Hn. split.
      - replace 52 with ((d - 1) + (53 - d)) by lia.
        rewrite Z.pow_add_r by lia.
        apply Z.mul_le_mono_nonneg_r; [apply Z.pow_nonneg; lia | assumption].
      - replace 53 with (d + (53 - d)) at 2 by lia.
        rewrite Z.pow_add_r by lia.
        apply Z.mul_lt_mono_pos_r; [apply Z.pow_pos_nonneg; lia | assumption]. }
    destruct (binary_round_aux_normal s (Z.pos (Pos.iter xO p n)) (d - 53) loc_Exact)
      as [m [e [E [Hm He]]]].
    + split; [lia|]. eapply Z.lt_trans; [apply Hmz|]. reflexivity.
    + lia.
    + rewrite (Zdigits2_unique _ 53) in He by (change (53 - 1) with 52; lia).
      exists m, e. repeat split; try assumption; lia.
Qed.

Lemma shr_fexp_nonneg x e l :
  0 <= x -> 0 <= shr_m (fst (shr_fexp prec emax x e l)).
Proof.
  intros Hx. unfold shr_fexp.
  assert (Hrec : shr_m (shr_record_of_loc x l) = x)
    by (destruct l as [|[]]; reflexivity).
  destruct (fexp prec emax (Zdigits2 x + e) - e) as [|n|n];
    cbn [shr fst]; rewrite ?Hrec; try assumption.
  rewrite iter_pos_nat, shr_iter_m, Hrec by lia.
  apply Z.div_pos; [assumption | apply Z.pow_pos_nonneg; lia].
Qed.

(** Rounding a mantissa that is not negative never makes a NaN. *)
Lemma binary_round_aux_not_nan s x e l :
  0 <= x -> binary_round_aux prec emax s x e l <> S754_nan.
Proof.
  intros Hx. unfold binary_round_aux.
  pose proof (shr_fexp_nonneg x e l Hx) as H1.
  destruct (shr_fexp prec emax x e l) as [mrs' e']. cbn [fst] in H1.
  pose proof (round_nearest_even_bounds (shr_m mrs') (loc_of_shr_record mrs')) as Hr.
  set (q2 := round_nearest_even (shr_m mrs') (loc_of_shr_record mrs')) in *.
  pose proof (shr_fexp_nonneg q2 e' loc_Exact ltac:(lia)) as H2.
  destruct (shr_fexp prec emax q2 e' loc_Exact) as [mrs'' e'']. cbn [fst] in H2.
  destruct (shr_m mrs'') as [|m|m]; try lia; try discriminate.
  destruct (e'' <=? emax - prec); discriminate.
Qed.

Lemma SFdiv_finite_not_nan sx mx ex sy my ey :
  SFdiv prec emax (S754_finite sx mx ex) (S754_finite sy my ey) <> S754_nan.
Proof.
  cbn [SFdiv]. unfold SFdiv_core_binary.
  set (m' := match _ with Z.pos _ => _ | _ => _ end).
  assert (Hm : 0 <= m').
  { subst m'. destruct (_ - _ - _); try lia. apply Z.shiftl_nonneg. lia. }
  pose proof (Z_div_mod m' (Z.pos my) ltac:(lia)) as Hq.
  destruct (Z.div_eucl m' (Z.pos my)) as [q r].
  apply binary_round_aux_not_nan. nia.
Qed.

(** The quotient of two normal numbers with small exponents is a normal
    number: it neither overflows nor vanishes. *)
Lemma SFdiv_normal sx mx ex sy my ey :
  2 ^ 52 <= Z.pos mx < 2 ^ 53 -> -52 <= ex <= 12 ->
  2 ^ 52 <= Z.pos my < 2 ^ 53 -> -52 <= ey <= 12 ->
  exists m e,
    SFdiv prec emax (S754_finite sx mx ex) (S754_finite sy my ey)
    = S754_finite (xorb sx sy) m e.
Proof.
  intros Hmx Hex Hmy Hey. cbn [SFdiv]. unfold SFdiv_core_binary.
  rewrite (Zdigits2_unique (Z.pos mx) 53), (Zdigits2_unique (Z.pos my) 53)
    by (change (53 - 1) with 52; lia).
  unfold fexp, emin, prec, emax.
  replace (Z.min (Z.max (53 + ex - (53 + ey) - 53) (3 - 1024 - 53)) (ex - ey))
    with (ex - ey - 53) by lia.
  replace (ex - ey - (ex - ey - 53)) with 53 by lia.
  rewrite Z.shiftl_mul_pow2 by lia.
  pose proof (Z_div_mod (Z.pos mx * 2 ^ 53) (Z.pos my) ltac:(lia)) as Hq.
  destruct (Z.div_eucl (Z.pos mx * 2 ^ 53) (Z.pos my)) as [q r].
  destruct Hq as [Hq Hr].
  change (2 ^ 53) with 9007199254740992 in *.
  change (2 ^ 52) with 4503599627370496 in *.
  destruct (binary_round_aux_normal (xorb sx sy) q (ex - ey - 53)
              (new_location (Z.pos my) r)) as [m [e [E _]]].
  - change (2 ^ 52) with 4503599627370496.
    assert (2 ^ 200 = 9007199254740992 * 9007199254740992 * 2 ^ 94) as -> by reflexivity.
    assert (0 < 2 ^ 94) by reflexivity.
    split; nia.
  - lia.
  - exists m, e. exact E.
Qed.

End Float64Round.

(* ===================================================================== *)
(** ** package main: square, add, apply, and more on divide and the ids *)
(* ===================================================================== *)

Module MainMore.
Import GoInt GoIntFacts Float64 Float64Facts Float64Round Main MainFacts.
Local Open Scope bool_scope.

(** A wrapped result is the exact one exactly when the exact one fits. *)
Lemma wrap_exact_iff x : wrap x = x <-> in_range x.
Proof.
  split; [intros <-; apply wrap_in_range | apply wrap_id].
Qed.

Lemma wrap_add_wrap_r x y : wrap (x + wrap y) = wrap (x + y).
Proof. now rewrite Z.add_comm, wrap_wrap_add, Z.add_comm. Qed.

(** Two wrapped results agree exactly when the exact ones differ by a
    multiple of [2 ^ 64]. *)
Lemma wrap_eq_iff x y : wrap x = wrap y <-> (2 ^ intSize | x - y).
Proof.
  unfold wrap. split.
  - intros H. apply Z.add_cancel_r in H.
    apply Z.mod_divide; [discriminate|].
    replace (x - y) with ((x - minInt) - (y - minInt)) by lia.
    now rewrite Zminus_mod, H, Z.sub_diag.
  - intros [c Hc]. f_equal.
    replace (x - minInt) with ((y - minInt) + c * 2 ^ intSize) by lia.
    apply Z.mod_add. discriminate.
Qed.

(** [square] returns the true square exactly for the arguments of absolute
    value at most 3037000499, the integer square root of [maxInt]; beyond
    that the result is the wrapped product, still an [int]. *)
Theorem square_exact_iff (a : Z) :
  (square a = a * a <-> Z.abs a <= 3037000499) /\ in_range (square a).
Proof.
  split; [|apply wrap_in_range].
  unfold square. rewrite wrap_exact_iff.
  unfold in_range, minInt, maxInt, intSize.
  change (2 ^ (64 - 1)) with 9223372036854775808.
  split; intros H; [|nia].
  destruct (Z_le_gt_dec (Z.abs a) 3037000499) as [|Hgt]; [assumption|].
  exfalso. nia.
Qed.

Lemma add_from acc nums :
  fold_left (fun sum num => wrap (sum + num)) nums (wrap acc)
  = wrap (acc + total nums).
Proof.
  revert acc. induction nums as [|x r IH]; intros acc; cbn [fold_left].
  - change (total []) with 0. now rewrite Z.add_0_r.
  - change (total (x :: r)) with (x + total r).
    rewrite wrap_wrap_add, IH. f_equal. lia.
Qed.

Lemma total_app xs ys : total (xs ++ ys) = total xs + total ys.
Proof.
  unfold total. induction xs as [|x r IH]; simpl; lia.
Qed.

Lemma total_perm xs ys : Permutation xs ys -> total xs = total ys.
Proof.
  induction 1 as [|x l l' _ IH|x y l|l l' l'' _ IH1 _ IH2].
  - reflexivity.
  - change (x + total l = x + total l'). lia.
  - change (y + (x + total l) = x + (y + total l)). lia.
  - congruence.
Qed.

Lemma add_total nums : add nums = wrap (total nums).
Proof.
  unfold add. change 0 with (wrap 0) at 1. now rewrite add_from.
Qed.

(** [add] returns the true sum of its arguments reduced into the range of
    [int]: overflow of a running sum does no harm when the true sum fits.
    Without arguments it returns 0, and further arguments add their own sum
    to the one so far. *)
Theorem add_wraps_total (nums : list Z) :
  add nums = wrap (total nums) /\
  (in_range (total nums) -> add nums = total nums) /\
  add [] = 0 /\
  (forall more, add (nums ++ more) = wrap (add nums + add more)).
Proof.
  split; [apply add_total | split; [| split; [reflexivity |]]].
  - intros Hr. rewrite add_total. now apply wrap_id.
  - intros more.
    now rewrite !add_total, total_app, wrap_wrap_add, wrap_add_wrap_r.
Qed.

Example add_comment : add [5; 2; 3] = 10.
Proof. reflexivity. Qed.

Example add_overflow_in_between : add [maxInt; 1; -1] = maxInt.
Proof. vm_compute. reflexivity. Qed.

(** The order of the arguments of [add] does not matter, whether a running
    sum overflows on the way or not. *)
Theorem add_order_free (xs ys : list Z) :
  Permutation xs ys -> add xs = add ys.
Proof.
  intros HP. now rewrite !add_total, (total_perm xs ys HP).
Qed.

Lemma add_order_free_witness :
  Permutation [maxInt; 1; -5] [-5; maxInt; 1] /\
  add [maxInt; 1; -5] = add [-5; maxInt; 1].
Proof.
  assert (HP : Permutation [maxInt; 1; -5] [-5; maxInt; 1]).
  { apply Permutation_sym. apply (Permutation_cons_app [maxInt; 1] [] (-5)).
    apply Permutation_refl. }
  split; [exact HP | apply (add_order_free _ _ HP)].
Defined.

(** [store] at the first free index of a slice filled up to there. *)
Lemma store_at_length done p pending v :
  store (done ++ p :: pending) (List.length done) v
  = Some (done ++ v :: pending).
Proof.
  unfold store. rewrite length_app. cbn [List.length].
  replace (List.length done <? List.length done + S (List.length pending))%nat
    with true by (symmetry; apply Nat.ltb_lt; lia).
  rewrite firstn_app, Nat.sub_diag, firstn_all. cbn [firstn].
  rewrite app_nil_r.
  replace (S (List.length done)) with (List.length done + 1)%nat by lia.
  now rewrite skipn_app, skipn_all2, Nat.add_comm, Nat.add_sub by lia.
Qed.

(** The loop of [apply] writes what [fn] returns, call after call, into
    the places still free. *)
Lemma apply_range_call_each {St : Type} (fn : Z -> state St Z) nums :
  forall done pending s,
    List.length pending = List.length nums ->
    runState (apply_range fn (List.length done) nums (done ++ pending)) s
    = (Some (done ++ fst (runState (call_each fn nums) s)),
       snd (runState (call_each fn nums) s)).
Proof.
  induction nums as [|val rest IH]; intros done pending s Hlen.
  - destruct pending; [|discriminate Hlen]. reflexivity.
  - destruct pending as [|p pending]; [discriminate Hlen|].
    cbn [apply_range call_each]. cbn [bind ret Monad_state runState].
    destruct (runState (fn val) s) as [v s1] eqn:Ev.
    rewrite store_at_length.
    replace (done ++ v :: pending) with ((done ++ [v]) ++ pending)
      by (now rewrite <- app_assoc).
    replace (S (List.length done)) with (List.length (done ++ [v]))
      by (rewrite length_app; cbn; lia).
    rewrite IH by (cbn in Hlen; lia).
    destruct (runState (call_each fn rest) s1) as [vs s2].
    cbn [fst snd]. now rewrite <- app_assoc.
Qed.

(** [apply] never indexes out of range.  It calls [fn] once per element,
    from left to right, and returns what the calls returned in that order;
    for a function without side effects this is the list of the [f val],
    as long as [nums], and nothing else changes. *)
Theorem apply_in_order {St : Type} (nums : list Z) :
  (forall (fn : Z -> state St Z) s,
     runState (apply nums fn) s
     = (Some (fst (runState (call_each fn nums) s)),
        snd (runState (call_each fn nums) s))) /\
  (forall (f : Z -> Z) (s : St),
     runState (apply nums (pure_fn f)) s = (Some (map f nums), s)).
Proof.
  assert (H : forall (fn : Z -> state St Z) s,
     runState (apply nums fn) s
     = (Some (fst (runState (call_each fn nums) s)),
        snd (runState (call_each fn nums) s))).
  { intros fn s. unfold apply.
    apply (apply_range_call_each fn nums [] (repeat 0 (List.length nums)) s).
    apply repeat_length. }
  split; [exact H |].
  intros f s. rewrite H. clear H.
  induction nums as [|val rest IH]; [reflexivity|].
  cbn [call_each map]. unfold pure_fn at 1 3.
  cbn [bind ret Monad_state runState].
  destruct (runState (call_each (pure_fn f) rest) s) as [vs s'].
  cbn [fst snd] in *. now injection IH as -> ->.
Qed.

Example main_apply :
  runState (apply [1; 2; 3; 4] (pure_fn (fun i => wrap (i * i)))) tt
  = (Some [1; 4; 9; 16], tt).
Proof. reflexivity. Qed.

(** [call_each] with the function literal of [idGenerator] is a run of
    [calls] on the closure. *)
Lemma call_each_next (nums : list Z) : forall x,
  runState (call_each (fun _ => next) nums) x
  = (fst (calls (List.length nums) (mkClosure x next)),
     id (snd (calls (List.length nums) (mkClosure x next)))).
Proof.
  induction nums as [|val rest IH]; intros x; [reflexivity|].
  cbn [call_each List.length calls]. rewrite call_next.
  cbn [bind ret Monad_state runState].
  change (runState next x) with (wrap (x + 1), wrap (x + 1)).
  cbv beta iota. rewrite IH.
  destruct (calls (List.length rest) (mkClosure (wrap (x + 1)) next)) as [vs c2].
  reflexivity.
Qed.

(** [apply] with a function that ignores its argument and returns
    [count()], for [count := idGenerator(start)]: the result holds the next
    [len(nums)] ids in order, element [i] being [start + i] wrapped, and
    the generator has moved on by [len(nums)] calls. *)
Theorem apply_with_idGenerator (start : Z) (nums : list Z) :
  let count := idGenerator start in
  let n := List.length nums in
  runState (apply nums (fun _ => body count)) (id count)
  = (Some (fst (calls n count)), id (snd (calls n count))) /\
  (forall i, (i < n)%nat ->
     nth_error (fst (calls n count)) i = Some (wrap (start + Z.of_nat i))).
Proof.
  cbn zeta. split.
  - unfold apply.
    rewrite (apply_range_call_each _ nums [] (repeat 0 (List.length nums)))
      by apply repeat_length.
    cbn [app]. unfold idGenerator. cbn [body id].
    now rewrite call_each_next.
  - intros i Hi. rewrite calls_nth by assumption.
    rewrite kth_call_wrap by lia. do 2 f_equal. lia.
Qed.

(** The ids of one generator are pairwise distinct over any [2 ^ 64] calls
    in a row: the [j]-th and the [k]-th call return different values
    whenever [0 < k - j < 2 ^ 64]. *)
Theorem idGenerator_distinct (start : Z) (j k : nat) :
  (1 <= j < k)%nat -> Z.of_nat k - Z.of_nat j < 2 ^ intSize ->
  kth_call j (idGenerator start) <> kth_call k (idGenerator start).
Proof.
  intros Hjk Hlt. rewrite !kth_call_wrap by lia. intros [= H].
  apply wrap_eq_iff in H. destruct H as [c Hc].
  change (2 ^ intSize) with 18446744073709551616 in *. lia.
Qed.

Lemma idGenerator_distinct_witness :
  (1 <= 1 < 4)%nat /\ Z.of_nat 4 - Z.of_nat 1 < 2 ^ intSize /\
  kth_call 1 (idGenerator maxInt) <> kth_call 4 (idGenerator maxInt).
Proof.
  split; [lia | split; [reflexivity |]].
  apply (idGenerator_distinct maxInt 1 4); [lia | reflexivity].
Defined.

(** [float64(z)] of a nonzero [int] is a normal number with the sign of
    [z]: 53 digits and an exponent from -52 to 12. *)
Lemma of_int_normal z :
  z <> 0 -> in_range z ->
  exists m e,
    of_int z = S754_finite (z <? 0) m e /\
    2 ^ 52 <= Z.pos m < 2 ^ 53 /\ -52 <= e <= 12.
Proof.
  intros Hz [Hlo Hhi]. unfold minInt, maxInt, intSize in *.
  change (2 ^ (64 - 1)) with 9223372036854775808 in *.
  destruct z as [|p|p]; [contradiction | |]; unfold of_int;
    cbn [binary_normalize Z.ltb Z.compare];
    apply binary_round_normal;
    change (2 ^ 64) with 18446744073709551616; lia.
Qed.

Lemma divide_zero_value (a : Z) :
  in_range a ->
  divide a 0
  = (if a =? 0 then S754_nan else S754_infinity (a <? 0),
     Some "Cannot divide by zero!"%string).
Proof.
  intros Ha. unfold divide. cbn [Z.eqb]. f_equal.
  destruct (Z.eqb_spec a 0) as [-> | Hne]; [reflexivity|].
  destruct (of_int_normal a Hne Ha) as [m [e [-> _]]].
  cbn. now rewrite Bool.xorb_false_r.
Qed.

Lemma divide_nonzero_value (a b : Z) :
  in_range a -> in_range b -> b <> 0 ->
  snd (divide a b) = None /\
  (a = 0 -> fst (divide a b) = S754_zero (b <? 0)) /\
  (a <> 0 ->
   exists m e,
     fst (divide a b) = S754_finite (xorb (a <? 0) (b <? 0)) m e).
Proof.
  intros Ha Hb Hne. unfold divide. cbn [fst snd].
  destruct (of_int_normal b Hne Hb) as [mb [eb [Eb [Hmb Heb]]]].
  split; [|split].
  - now destruct (Z.eqb_spec b 0).
  - intros ->. rewrite Eb. reflexivity.
  - intros Hane.
    destruct (of_int_normal a Hane Ha) as [ma [ea [Ea [Hma Hea]]]].
    rewrite Ea, Eb. now apply SFdiv_normal.
Qed.

(** A zero divisor: the quotient returned beside the error is [+Inf] for a
    positive [a], [-Inf] for a negative [a] and NaN for [a = 0]. *)
Theorem divide_zero_divisor (a : Z) :
  in_range a ->
  divide a 0
  = (if a =? 0 then S754_nan else S754_infinity (a <? 0),
     Some "Cannot divide by zero!"%string).
Proof. apply divide_zero_value. Qed.

Lemma divide_zero_divisor_witness :
  in_range (-3) /\
  divide (-3) 0
  = (S754_infinity true, Some "Cannot divide by zero!"%string).
Proof.
  assert (H : in_range (-3))
    by (unfold in_range, minInt, maxInt, intSize; simpl; lia).
  split; [exact H | apply (divide_zero_divisor (-3) H)].
Defined.

(** With a nonzero divisor the quotient has the sign given by the signs of
    [a] and [b]: a zero of the sign of [b] for [a = 0] (so [divide(0, -5)]
    is the negative zero), a finite nonzero number otherwise. *)
Theorem divide_nonzero_divisor (a b : Z) :
  in_range a -> in_range b -> b <> 0 ->
  snd (divide a b) = None /\
  (a = 0 -> fst (divide a b) = S754_zero (b <? 0)) /\
  (a <> 0 ->
   exists m e,
     fst (divide a b) = S754_finite (xorb (a <? 0) (b <? 0)) m e).
Proof. apply divide_nonzero_value. Qed.

Lemma divide_nonzero_divisor_witness :
  in_range 0 /\ in_range (-5) /\ -5 <> 0 /\
  fst (divide 0 (-5)) = S754_zero true.
Proof.
  assert (H0 : in_range 0)
    by (unfold in_range, minInt, maxInt, intSize; simpl; lia).
  assert (H5 : in_range (-5))
    by (unfold in_range, minInt, maxInt, intSize; simpl; lia).
  assert (Hne : -5 <> 0) by discriminate.
  split; [exact H0 | split; [exact H5 | split; [exact Hne |]]].
  destruct (divide_nonzero_divisor 0 (-5) H0 H5 Hne) as [_ [H _]].
  apply H. reflexivity.
Defined.

(** For [int] arguments the error and the quotient say the same thing: the
    quotient is finite exactly when the error is nil, that is when
    [b <> 0]; and it is a NaN only for [0 / 0]. *)
Theorem divide_finite_iff (a b : Z) :
  in_range a -> in_range b ->
  (is_finite (fst (divide a b)) = true <-> snd (divide a b) = None) /\
  (is_finite (fst (divide a b)) = true <-> b <> 0) /\
  (fst (divide a b) = S754_nan <-> a = 0 /\ b = 0).
Proof.
  intros Ha Hb.
  destruct (Z.eq_dec b 0) as [-> | Hne].
  - rewrite (divide_zero_value a Ha). cbn [fst snd].
    destruct (Z.eqb_spec a 0) as [-> | Hane]; cbn [is_finite];
      (split; [|split]); split; intros H; try discriminate H; try easy; try tauto; try lia.
  - destruct (divide_nonzero_value a b Ha Hb Hne) as [He [H0 Hn]].
    rewrite He.
    destruct (Z.eq_dec a 0) as [Haz | Hane].
    + rewrite (H0 Haz). cbn [is_finite].
      (split; [|split]); split; intros H; try discriminate H; try easy; try tauto; try lia.
    + destruct (Hn Hane) as [m [e ->]]. cbn [is_finite].
      (split; [|split]); split; intros H; try discriminate H; try easy; try tauto; try lia.
Qed.

Lemma divide_finite_iff_witness :
  in_range 7 /\ in_range 2 /\
  (is_finite (fst (divide 7 2)) = true <-> snd (divide 7 2) = None).
Proof.
  assert (H7 : in_range 7)
    by (unfold in_range, minInt, maxInt, intSize; simpl; lia).
  assert (H2 : in_range 2)
    by (unfold in_range, minInt, maxInt, intSize; simpl; lia).
  split; [exact H7 | split; [exact H2 |]].
  apply (divide_finite_iff 7 2 H7 H2).
Defined.

End MainMore.

(* ===================================================================== *)
(** ** The chapters' Divide, Min, Max and Stack *)
(* ===================================================================== *)

Module ChapterFacts.
Import GoInt GoIntFacts Float64 Float64Facts Float64Round.
Import Phase03.

(** The chapters' [Divide]: the error is there exactly when the divisor is
    a zero of either sign, and then the result is [0], not a quotient;
    otherwise the result is [a / b].  A NaN divisor is not caught: it
    gives a NaN and no error. *)
Theorem chapter_divide_error_iff (a b : float64) :
  (snd (Phase01.divide a b) <> None <-> exists s, b = S754_zero s) /\
  (snd (Phase01.divide a b) <> None -> fst (Phase01.divide a b) = of_int 0) /\
  (snd (Phase01.divide a b) = None -> fst (Phase01.divide a b) = div a b) /\
  Phase01.divide a S754_nan = (S754_nan, None).
Proof.
  unfold Phase01.divide.
  assert (Hd : div a S754_nan = S754_nan) by (now destruct a).
  destruct b as [s | [|] | | [|] m e]; cbn [eqb SFeqb SFcompare of_int
    binary_normalize fst snd]; rewrite ?Hd;
    (split; [split; [intros H; try (now exists s); try (now elim H)
                    | intros [s' H]; try discriminate H; discriminate]
            | split; [intros H; try reflexivity; now elim H
                     | split; [intros H; try reflexivity; discriminate H
                              | reflexivity]]]).
Qed.

(** On [int] arguments the exercise's [divide] and the chapters' [Divide]
    report an error for the same inputs and agree on the quotient when
    there is none; for [b = 0] the chapters' one returns the finite [0]
    where the exercise's returns an infinity or a NaN. *)
Theorem divide_versions (a b : Z) :
  in_range a -> in_range b ->
  (snd (Phase01.divide (of_int a) (of_int b)) = None
   <-> snd (Main.divide a b) = None) /\
  (b <> 0 ->
   fst (Phase01.divide (of_int a) (of_int b)) = fst (Main.divide a b)) /\
  (b = 0 ->
   fst (Phase01.divide (of_int a) (of_int b)) = S754_zero false /\
   is_finite (fst (Phase01.divide (of_int a) (of_int b))) = true /\
   is_finite (fst (Main.divide a b)) = false).
Proof.
  intros Ha Hb. unfold Phase01.divide, Main.divide. cbn [fst snd].
  destruct (Z.eqb_spec b 0) as [-> | Hne].
  - cbn [of_int binary_normalize eqb SFeqb SFcompare fst snd].
    split; [split; intros H; discriminate H | split; [intros H; now elim H |]].
    intros _. split; [reflexivity | split; [reflexivity | apply div_zero_not_finite]].
  - destruct (MainMore.of_int_normal b Hne Hb) as [m [e [-> _]]].
    replace (eqb (S754_finite (b <? 0) m e) (of_int 0)) with false
      by (now destruct (b <? 0)).
    cbn [fst snd].
    split; [split; reflexivity | split; [reflexivity | intros H; now elim Hne]].
Qed.

Lemma divide_versions_witness :
  in_range 10 /\ in_range 2 /\
  fst (Phase01.divide (of_int 10) (of_int 2)) = fst (Main.divide 10 2).
Proof.
  assert (H10 : in_range 10)
    by (unfold in_range, minInt, maxInt, intSize; simpl; lia).
  assert (H2 : in_range 2)
    by (unfold in_range, minInt, maxInt, intSize; simpl; lia).
  split; [exact H10 | split; [exact H2 |]].
  destruct (divide_versions 10 2 H10 H2) as [_ [H _]].
  apply H. discriminate.
Defined.

(** What [TestDivide] checks: [Divide(10, 2)] is 5 without an error, and
    [Divide(10, 0)] returns an error. *)
Example TestDivide_passes :
  Phase01.divide (of_int 10) (of_int 2) = (of_int 5, None) /\
  snd (Phase01.divide (of_int 10) (of_int 0)) <> None.
Proof. split; [vm_compute; reflexivity | discriminate]. Qed.

(** [Min] and [Max] on [int]: each returns one of its arguments, [Min] the
    smaller and [Max] the larger, so together they return both, and the
    order of the arguments does not matter. *)
Theorem Min_Max_int (a b : Z) :
  Min a b = Z.min a b /\ Max a b = Z.max a b /\
  Min a b <= Max a b /\ Min a b + Max a b = a + b /\
  Min a b = Min b a /\ Max a b = Max b a.
Proof.
  unfold Min, Max. cbn [lt Ordered_int].
  destruct (Z.ltb_spec a b), (Z.ltb_spec b a); lia.
Qed.

(** [Min] and [Max] on [float64] when a NaN is involved: every comparison
    with a NaN is false, so both return their second argument, and
    swapping the arguments changes the result. *)
Theorem Min_Max_NaN (x : float64) :
  Min S754_nan x = x /\ Max S754_nan x = x /\
  Min x S754_nan = S754_nan /\ Max x S754_nan = S754_nan.
Proof.
  unfold Min, Max. cbn [lt Ordered_float64]. unfold ltb, SFltb.
  destruct x as [s | s | | s m e]; cbn [SFcompare]; repeat split.
Qed.

Lemma Pop_after_Push {T : Type} (zero : T) (s : Stack T) (v : T) :
  Pop zero (Push s v) = (v, true, s).
Proof.
  destruct s as [l]. unfold Pop, Push. cbn [elements].
  rewrite length_app, Nat.add_comm. cbn [List.length Nat.add].
  now rewrite nth_middle, firstn_app, firstn_all, Nat.sub_diag, app_nil_r.
Qed.

(** [Push] then [Pop] gives back the value pushed, with [ok = true], and
    the stack as it was; [Pop] on the empty stack gives the zero value with
    [ok = false] and leaves it empty. *)
Theorem Pop_Push {T : Type} (zero : T) (s : Stack T) (v : T) :
  Pop zero (Push s v) = (v, true, s) /\
  Pop zero (mkStack []) = (zero, false, mkStack []).
Proof.
  split; [apply Pop_after_Push | reflexivity].
Qed.

Lemma PopN_PushAll {T : Type} (zero : T) (vs : list T) : forall s,
  PopN zero (List.length vs) (PushAll s vs) = (List.rev vs, s).
Proof.
  induction vs as [|v vs IH] using rev_ind; intros s; [reflexivity|].
  unfold PushAll. rewrite fold_left_app. cbn [fold_left].
  fold (PushAll s vs).
  rewrite length_app, Nat.add_comm. cbn [List.length Nat.add PopN].
  rewrite Pop_after_Push, IH, rev_app_distr. reflexivity.
Qed.

(** Last in, first out: after pushing the values of a list, as many calls
    of [Pop] return them in reverse order and leave the stack as it was
    before; on the empty stack any number of calls returns nothing. *)
Theorem Stack_lifo {T : Type} (zero : T) (s : Stack T) (vs : list T) (n : nat) :
  PopN zero (List.length vs) (PushAll s vs) = (List.rev vs, s) /\
  PopN zero n (mkStack []) = ([], mkStack []).
Proof.
  split; [apply PopN_PushAll |].
  induction n as [|n IH]; [reflexivity|].
  cbn [PopN]. unfold Pop at 1. cbn [elements List.length]. now rewrite IH.
Qed.

End ChapterFacts.

(* ===================================================================== *)
(** ** The retry loop *)
(* ===================================================================== *)

Module Phase04Facts.
Import GoInt GoIntFacts Phase04.

Section RetryFacts.

Variable E : Type.
Variable is_timeout : E -> bool.
Variable fn : nat -> option E.
Variable maxAttempts : Z.
Hypothesis maxAttempts_int : in_range maxAttempts.

Lemma retry_loop_step fuel i lastErr t :
  retry_loop is_timeout fn maxAttempts (S fuel) i lastErr t
  = if i <? maxAttempts then
      match fn (calls_made t) with
      | None => Some (None, mkTrace (S (calls_made t)) (slept t))
      | Some err =>
          if is_timeout err
          then retry_loop is_timeout fn maxAttempts fuel (wrap (i + 1))
                 (Some err)
                 (mkTrace (S (calls_made t)) (backoff i :: slept t))
          else Some (Some (Passed err),
                     mkTrace (S (calls_made t)) (slept t))
      end
    else Some (Some (AfterAttempts maxAttempts lastErr), t).
Proof. reflexivity. Qed.

Lemma sleeps_S k : sleeps (S k) = backoff (Z.of_nat k) :: sleeps k.
Proof.
  unfold sleeps. now rewrite seq_S, rev_app_distr.
Qed.

(** As long as the calls time out, the loop goes on: after [k] of them it
    is at [i = k], has slept [k] times and remembers the last error. *)
Lemma retry_prefix k :
  (k <= Z.to_nat maxAttempts)%nat -> timeouts is_timeout fn k ->
  WithRetry is_timeout fn maxAttempts
  = retry_loop is_timeout fn maxAttempts (Z.to_nat maxAttempts - k)
      (Z.of_nat k) (last_of fn k) (mkTrace k (sleeps k)).
Proof.
  induction k as [|k IH]; intros Hk Ht.
  - unfold WithRetry. now rewrite Nat.sub_0_r.
  - rewrite IH by (try lia; intros j Hj; apply Ht; lia).
    replace (Z.to_nat maxAttempts - k)%nat
      with (S (Z.to_nat maxAttempts - S k)) by lia.
    rewrite retry_loop_step. cbn [calls_made slept].
    replace (Z.of_nat k <? maxAttempts) with true
      by (symmetry; apply Z.ltb_lt; lia).
    change (last_of fn (S k)) with (fn k).
    destruct (Ht k ltac:(lia)) as [e [-> ->]].
    rewrite wrap_id, <- sleeps_S.
    + f_equal. lia.
    + destruct maxAttempts_int as [_ Hhi]. split; [|lia].
      unfold minInt, intSize. change (2 ^ (64 - 1)) with 9223372036854775808.
      lia.
Qed.

(** With [maxAttempts <= 0] the function [fn] is never called and nothing
    is slept, and still an error is returned: the "after N attempts" one,
    wrapping no error at all. *)
Theorem WithRetry_no_attempts :
  maxAttempts <= 0 ->
  WithRetry is_timeout fn maxAttempts
  = Some (Some (AfterAttempts maxAttempts None), mkTrace 0 []).
Proof.
  intros Hn. unfold WithRetry.
  replace (Z.to_nat maxAttempts) with O by lia. cbn [retry_loop].
  now replace (0 <? maxAttempts) with false by (symmetry; apply Z.ltb_ge; lia).
Qed.

(** The loop stops at the first call that does not time out: when the
    calls before the [k]-th (from zero) timed out and the [k]-th returns
    nil, the result is nil; when it returns another error, that error is
    passed on as it is.  Either way [fn] was called [k + 1] times and the
    loop slept after each of the [k] timeouts only. *)
Theorem WithRetry_first_decision (k : nat) :
  (k < Z.to_nat maxAttempts)%nat -> timeouts is_timeout fn k ->
  (fn k = None ->
   WithRetry is_timeout fn maxAttempts
   = Some (None, mkTrace (S k) (sleeps k))) /\
  (forall e, fn k = Some e -> is_timeout e = false ->
   WithRetry is_timeout fn maxAttempts
   = Some (Some (Passed e), mkTrace (S k) (sleeps k))).
Proof.
  intros Hk Ht.
  assert (H : WithRetry is_timeout fn maxAttempts
              = retry_loop is_timeout fn maxAttempts
                  (S (Z.to_nat maxAttempts - S k))
                  (Z.of_nat k) (last_of fn k) (mkTrace k (sleeps k))).
  { rewrite (retry_prefix k) by (try lia; assumption). f_equal. lia. }
  rewrite H, retry_loop_step. cbn [calls_made slept].
  replace (Z.of_nat k <? maxAttempts) with true
    by (symmetry; apply Z.ltb_lt; lia).
  split.
  - now intros ->.
  - now intros e -> ->.
Qed.

(** When all [maxAttempts] calls time out, the result is the "after N
    attempts" error around the last of them; [fn] was called [maxAttempts]
    times and the loop slept after every call, the last one included:
    1 + 2 + ... + [maxAttempts] seconds in all, as long as no duration
    overflows. *)
Theorem WithRetry_gives_up :
  0 < maxAttempts -> timeouts is_timeout fn (Z.to_nat maxAttempts) ->
  WithRetry is_timeout fn maxAttempts
  = Some (Some (AfterAttempts maxAttempts (fn (Z.to_nat maxAttempts - 1))),
          mkTrace (Z.to_nat maxAttempts) (sleeps (Z.to_nat maxAttempts))) /\
  List.length (sleeps (Z.to_nat maxAttempts)) = Z.to_nat maxAttempts /\
  (maxAttempts <= 9223372036 ->
   2 * Main.total (sleeps (Z.to_nat maxAttempts))
   = 1000000000 * (maxAttempts * (maxAttempts + 1))).
Proof.
  intros Hn Ht. split; [|split].
  - rewrite (retry_prefix (Z.to_nat maxAttempts)) by (try lia; assumption).
    rewrite Nat.sub_diag. cbn [retry_loop].
    replace (Z.of_nat (Z.to_nat maxAttempts) <? maxAttempts) with false
      by (symmetry; apply Z.ltb_ge; lia).
    destruct (Z.to_nat maxAttempts) as [|j] eqn:Ej; [lia|].
    cbn [last_of]. now rewrite Nat.sub_succ, Nat.sub_0_r.
  - unfold sleeps. now rewrite length_map, length_rev, length_seq.
  - intros Hb.
    assert (Hs : forall k, Z.of_nat k <= 9223372036 ->
              2 * Main.total (sleeps k)
              = 1000000000 * (Z.of_nat k * (Z.of_nat k + 1))).
    { induction k as [|k IH]; intros Hk; [reflexivity|].
      rewrite sleeps_S.
      change (Main.total (backoff (Z.of_nat k) :: sleeps k))
        with (backoff (Z.of_nat k) + Main.total (sleeps k)).
      unfold backoff.
      rewrite (wrap_id (Z.of_nat k + 1)), wrap_id;
        unfold in_range, minInt, maxInt, intSize;
        change (2 ^ (64 - 1)) with 9223372036854775808; try lia. }
    rewrite Hs by lia. rewrite Z2Nat.id by lia. reflexivity.
Qed.

Lemma retry_loop_out_of_fuel i lastErr t :
  retry_loop is_timeout fn maxAttempts O i lastErr t
  = if i <? maxAttempts then None
    else Some (Some (AfterAttempts maxAttempts lastErr), t).
Proof. reflexivity. Qed.

Lemma retry_loop_total fuel : forall i lastErr t,
  0 <= i -> (Z.to_nat (maxAttempts - i) <= fuel)%nat ->
  exists r t',
    retry_loop is_timeout fn maxAttempts fuel i lastErr t = Some (r, t') /\
    (calls_made t <= calls_made t'
     <= calls_made t + Z.to_nat (maxAttempts - i))%nat /\
    (List.length (slept t') + calls_made t
     <= List.length (slept t) + calls_made t')%nat /\
    (r = None -> exists k, calls_made t' = S k /\ fn k = None).
Proof.
  induction fuel as [|fuel IH]; intros i lastErr t Hi Hfuel.
  - rewrite retry_loop_out_of_fuel.
    replace (i <? maxAttempts) with false by (symmetry; apply Z.ltb_ge; lia).
    eexists _, _. split; [reflexivity|].
    repeat split; try lia. intros H; discriminate H.
  - rewrite retry_loop_step.
    destruct (Z.ltb_spec i maxAttempts) as [Hlt | Hge].
    + destruct (fn (calls_made t)) as [err|] eqn:Efn.
      * destruct (is_timeout err).
        -- assert (Hw : wrap (i + 1) = i + 1).
           { apply wrap_id. destruct maxAttempts_int as [_ Hhi].
             split; [|lia]. unfold minInt, intSize.
             change (2 ^ (64 - 1)) with 9223372036854775808. lia. }
           rewrite Hw.
           destruct (IH (i + 1) (Some err)
                        (mkTrace (S (calls_made t)) (backoff i :: slept t)))
             as [r [t' [E' [Hc [Hs Hr]]]]]; [lia | lia |].
           cbn [calls_made slept List.length] in Hc, Hs.
           exists r, t'. split; [exact E'|]. repeat split; try lia.
           exact Hr.
        -- eexists _, _. split; [reflexivity|]. cbn [calls_made slept].
           repeat split; try lia. intros H; discriminate H.
      * eexists _, _. split; [reflexivity|]. cbn [calls_made slept].
        repeat split; try lia. intros _. now exists (calls_made t).
    + eexists _, _. split; [reflexivity|].
      repeat split; try lia. intros H; discriminate H.
Qed.

(** [WithRetry] always comes to an end.  It calls [fn] at most
    [maxAttempts] times, never sleeps more often than it called, and
    returns nil only when the last call it made returned nil. *)
Theorem WithRetry_bounded :
  exists r t,
    WithRetry is_timeout fn maxAttempts = Some (r, t) /\
    (calls_made t <= Z.to_nat maxAttempts)%nat /\
    (List.length (slept t) <= calls_made t)%nat /\
    (r = None -> exists k, calls_made t = S k /\ fn k = None).
Proof.
  destruct (retry_loop_total (Z.to_nat maxAttempts) 0 None (mkTrace 0 []))
    as [r [t [Er [Hc [Hs Hr]]]]]; [lia | rewrite Z.sub_0_r; lia |].
  cbn [calls_made slept List.length] in Hc, Hs. rewrite Z.sub_0_r in Hc.
  exists r, t. split; [exact Er|]. repeat split; try lia. exact Hr.
Qed.

End RetryFacts.

Lemma script_timeouts : timeouts (fun e : bool => e) script 2.
Proof.
  intros j Hj. exists true. unfold script.
  now replace (j <? 2)%nat with true by (symmetry; apply Nat.ltb_lt; lia).
Qed.

Lemma in_range_small z : -1000 <= z <= 1000 -> in_range z.
Proof.
  unfold in_range, minInt, maxInt, intSize.
  change (2 ^ (64 - 1)) with 9223372036854775808. lia.
Qed.

Lemma WithRetry_no_attempts_witness :
  0 <= 0 /\
  WithRetry (fun e : bool => e) script 0
  = Some (Some (AfterAttempts 0 None), mkTrace 0 []).
Proof.
  split; [lia |].
  apply (WithRetry_no_attempts bool (fun e => e) script 0). lia.
Defined.

Lemma WithRetry_first_decision_witness :
  in_range 5 /\ (2 < Z.to_nat 5)%nat /\
  timeouts (fun e : bool => e) script 2 /\
  WithRetry (fun e : bool => e) script 5
  = Some (None, mkTrace 3 (sleeps 2)).
Proof.
  assert (H5 : in_range 5) by (apply in_range_small; lia).
  assert (Hk : (2 < Z.to_nat 5)%nat) by (simpl; lia).
  split; [exact H5 | split; [exact Hk | split; [exact script_timeouts |]]].
  destruct (WithRetry_first_decision bool (fun e => e) script 5 H5 2 Hk
              script_timeouts) as [H _].
  apply H. reflexivity.
Defined.

Lemma WithRetry_gives_up_witness :
  in_range 2 /\ 0 < 2 /\
  timeouts (fun e : bool => e) script (Z.to_nat 2) /\
  WithRetry (fun e : bool => e) script 2
  = Some (Some (AfterAttempts 2 (script (Z.to_nat 2 - 1))),
          mkTrace (Z.to_nat 2) (sleeps (Z.to_nat 2))).
Proof.
  assert (H2 : in_range 2) by (apply in_range_small; lia).
  assert (Hn : 0 < 2) by lia.
  split; [exact H2 | split; [exact Hn | split; [exact script_timeouts |]]].
  destruct (WithRetry_gives_up bool (fun e => e) script 2 H2 Hn
              script_timeouts) as [H _].
  exact H.
Defined.

Lemma WithRetry_bounded_witness :
  in_range 5 /\
  exists r t,
    WithRetry (fun e : bool => e) script 5 = Some (r, t) /\
    (calls_made t <= Z.to_nat 5)%nat /\
    (List.length (slept t) <= calls_made t)%nat /\
    (r = None -> exists k, calls_made t = S k /\ script k = None).
Proof.
  assert (H5 : in_range 5) by (apply in_range_small; lia).
  split; [exact H5 |].
  apply (WithRetry_bounded bool (fun e => e) script 5 H5).
Defined.

End Phase04Facts.

(* ===================================================================== *)
(** ** Add and its fuzz target *)
(* ===================================================================== *)

Module Phase10Facts.
Import GoInt GoIntFacts Phase10.

(** A sum of two [int]s that passes [maxInt] comes back lowered by
    [2 ^ 64]. *)
Lemma wrap_overflow x :
  maxInt < x <= 2 * maxInt -> wrap x = x - 2 ^ intSize.
Proof.
  unfold wrap, minInt, maxInt, intSize.
  change (2 ^ (64 - 1)) with 9223372036854775808.
  change (2 ^ 64) with 18446744073709551616.
  intros H. rewrite Z.sub_opp_r.
  replace (x + 9223372036854775808)
    with ((x - 9223372036854775808) + 1 * 18446744073709551616) by lia.
  rewrite Z.mod_add by discriminate.
  rewrite Z.mod_small; lia.
Qed.

(** The two checks of [FuzzAdd] on [int] arguments: the commutativity
    check holds for every pair; the check "not below [a] when both are
    non-negative" holds exactly for the pairs whose sum does not overflow,
    so the fuzz target fails on [Add(maxInt, 1)]. *)
Theorem FuzzAdd_checks (a b : Z) :
  in_range a -> in_range b ->
  FuzzAdd_commutes a b = true /\
  (FuzzAdd_not_below a b = true <-> ~ (0 <= a /\ 0 <= b /\ maxInt < a + b)) /\
  FuzzAdd_not_below maxInt 1 = false.
Proof.
  intros Ha Hb. split; [|split; [|vm_compute; reflexivity]].
  - unfold FuzzAdd_commutes, Add. rewrite (Z.add_comm b a). apply Z.eqb_refl.
  - unfold FuzzAdd_not_below, Add.
    destruct (Z.leb_spec 0 a) as [Ha0 | Ha0]; cbn [andb negb];
      [|split; [lia | reflexivity]].
    destruct (Z.leb_spec 0 b) as [Hb0 | Hb0]; cbn [andb negb];
      [|split; [lia | reflexivity]].
    destruct (Z_le_gt_dec (a + b) maxInt) as [Hfit | Hover].
    + rewrite wrap_id by (unfold in_range in *; lia).
      destruct (Z.ltb_spec (a + b) a); cbn [negb];
        split; try lia; try reflexivity.
    + rewrite wrap_overflow by (unfold in_range in *; lia).
      assert (Hneg : a + b - 2 ^ intSize < a).
      { destruct Hb as [_ Hb]. unfold maxInt, intSize in *.
        change (2 ^ (64 - 1)) with 9223372036854775808 in *.
        change (2 ^ 64) with 18446744073709551616. lia. }
      apply Z.ltb_lt in Hneg. rewrite Hneg. cbn [negb].
      split; [intros H; discriminate H | intros H; exfalso; apply H; lia].
Qed.

Lemma FuzzAdd_checks_witness :
  in_range 2 /\ in_range 3 /\
  FuzzAdd_commutes 2 3 = true /\ Add 2 3 = 5.
Proof.
  assert (H2 : in_range 2)
    by (unfold in_range, minInt, maxInt, intSize; simpl; lia).
  assert (H3 : in_range 3)
    by (unfold in_range, minInt, maxInt, intSize; simpl; lia).
  split; [exact H2 | split; [exact H3 | split; [|reflexivity]]].
  destruct (FuzzAdd_checks 2 3 H2 H3) as [H _]. exact H.
Defined.

(** The rows of [TestAddTable]. *)
Example TestAddTable_passes :
  Add 2 3 = 5 /\ Add (-2) (-3) = -5 /\ Add (-2) 3 = 1 /\ Add 0 0 = 0.
Proof. repeat split. Qed.

End Phase10Facts.

(* ===================================================================== *)
(** ** binary64 rounding: which digits are dropped *)
(* ===================================================================== *)

Module Float64Shift.
Import Float64 Float64Round.

Lemma shr_inv_0 x : 0 <= x -> shr_inv x 0 (shr_record_of_loc x loc_Exact).
Proof.
  intros Hx. split; [exact Hx|]. exists 0.
  change (shr_m (shr_record_of_loc x loc_Exact)) with x.
  change (shr_r (shr_record_of_loc x loc_Exact)) with false.
  change (shr_s (shr_record_of_loc x loc_Exact)) with false.
  change (2 ^ (0 + 1)) with 2. change (2 ^ 0) with 1.
  repeat split; try lia; intros H; discriminate H.
Qed.

Lemma shr_1_fields mrs :
  0 <= shr_m mrs ->
  shr_m (shr_1 mrs) = Z.div2 (shr_m mrs) /\
  shr_r (shr_1 mrs) = Z.odd (shr_m mrs) /\
  shr_s (shr_1 mrs) = orb (shr_r mrs) (shr_s mrs).
Proof.
  destruct mrs as [m r s]. cbn [shr_m shr_r shr_s]. intros Hm.
  destruct m as [|[p|p|]|p]; try lia; repeat split.
Qed.

Lemma shr_inv_step x n mrs :
  0 <= n -> shr_inv x n mrs -> shr_inv x (n + 1) (shr_1 mrs).
Proof.
  intros Hn [Hm [t [Ht [Hx Hs]]]].
  destruct (shr_1_fields mrs Hm) as [Em [Er Es]].
  pose proof (Z.div2_odd (shr_m mrs)) as Hodd.
  assert (Hp : 0 < 2 ^ n) by (apply Z.pow_pos_nonneg; lia).
  assert (Hp1 : 2 ^ (n + 1) = 2 * 2 ^ n) by (rewrite Z.pow_add_r; lia).
  assert (Hp2 : 2 ^ (n + 1 + 1) = 4 * 2 ^ n) by (rewrite !Z.pow_add_r; lia).
  assert (Hd : 0 <= Z.div2 (shr_m mrs)) by (apply Z.div2_nonneg; exact Hm).
  split; [rewrite Em; exact Hd |].
  exists ((if shr_r mrs then 2 ^ n else 0) + t).
  rewrite Em, Er, Es, Hp1, Hp2. rewrite Hp1 in Hx.
  set (P := 2 ^ n) in *. set (h := Z.div2 (shr_m mrs)) in *.
  split; [destruct (shr_r mrs); lia |].
  split.
  - rewrite Hodd in Hx. destruct (Z.odd (shr_m mrs)); cbn [Z.b2z] in Hx; nia.
  - assert (Hs0 : shr_s mrs = false -> t = 0).
    { intros E. destruct (Z.eq_dec t 0) as [|Hne]; [assumption|].
      apply Hs in Hne. congruence. }
    assert (Hs1 : shr_s mrs = true -> t <> 0) by apply Hs.
    destruct (shr_r mrs), (shr_s mrs); cbn [orb]; split; intros H;
      try reflexivity; try discriminate H;
      try specialize (Hs0 eq_refl); try specialize (Hs1 eq_refl); lia.
Qed.

Lemma shr_inv_iter x k :
  0 <= x -> shr_inv x (Z.of_nat k) (Nat.iter k shr_1 (shr_record_of_loc x loc_Exact)).
Proof.
  intros Hx. induction k as [|k IH].
  - apply shr_inv_0, Hx.
  - rewrite Nat2Z.inj_succ, <- Z.add_1_r.
    change (Nat.iter (S k) shr_1 (shr_record_of_loc x loc_Exact))
      with (shr_1 (Nat.iter k shr_1 (shr_record_of_loc x loc_Exact))).
    apply shr_inv_step; [lia | exact IH].
Qed.

(** [shr_fexp] on an exact integer: the number of digits dropped and what
    is known about them. *)
Lemma shr_fexp_inv x e :
  0 <= x ->
  let n := Z.max 0 (Z.max (Zdigits2 x - 53) (-1074 - e)) in
  snd (shr_fexp prec emax x e loc_Exact) = e + n /\
  shr_inv x n (fst (shr_fexp prec emax x e loc_Exact)).
Proof.
  intros Hx n. unfold shr_fexp, fexp, emin, prec, emax.
  replace (Z.max (Zdigits2 x + e - 53) (3 - 1024 - 53) - e)
    with (Z.max (Zdigits2 x - 53) (-1074 - e)) by lia.
  subst n. destruct (Z.max (Zdigits2 x - 53) (-1074 - e)) as [|p|p] eqn:En;
    cbn [shr fst snd].
  - split; [lia | apply shr_inv_0, Hx].
  - split; [lia |]. rewrite iter_pos_nat.
    replace (Z.max 0 (Z.pos p)) with (Z.of_nat (Pos.to_nat p)) by lia.
    apply shr_inv_iter, Hx.
  - split; [lia | apply shr_inv_0, Hx].
Qed.

(** Rounding to nearest, ties to even, on what [shr] has left. *)
Lemma round_nearest_even_inv x n mrs :
  0 <= n -> shr_inv x n mrs ->
  let q := round_nearest_even (shr_m mrs) (loc_of_shr_record mrs) in
  0 <= q /\ 2 * Z.abs (q * 2 ^ n - x) <= 2 ^ n /\ (n = 0 -> q = x).
Proof.
  intros Hn [Hm [t [Ht [Hx Hs]]]] q. subst q.
  assert (Hp : 0 < 2 ^ n) by (apply Z.pow_pos_nonneg; lia).
  assert (Hp1 : 2 ^ (n + 1) = 2 * 2 ^ n) by (rewrite Z.pow_add_r; lia).
  rewrite Hp1 in Hx.
  assert (Hs0 : shr_s mrs = false -> t = 0).
  { intros E. destruct (Z.eq_dec t 0) as [|Hne]; [assumption|].
    apply Hs in Hne. congruence. }
  assert (Hn0 : n = 0 -> 2 ^ n = 1) by (intros ->; reflexivity).
  destruct mrs as [m r s]. cbn [shr_m shr_r shr_s loc_of_shr_record] in *.
  set (P := 2 ^ n) in *.
  destruct r, s; cbn [round_nearest_even];
    try specialize (Hs0 eq_refl).
  - repeat split; try nia; intros E; specialize (Hn0 E); nia.
  - destruct (Z.even m); repeat split; try nia;
      intros E; specialize (Hn0 E); nia.
  - repeat split; try nia; intros E; specialize (Hn0 E); nia.
  - repeat split; try nia; intros E; specialize (Hn0 E); nia.
Qed.

(** The result of rounding an exact positive integer [x] at exponent [e]:
    [n] digits are dropped, [q1] is [x / 2 ^ n] rounded to nearest even,
    and the number returned is [q1 * 2 ^ (e + n)], written with the
    mantissa [q] and the exponent [e']. *)
Lemma binary_round_aux_exact s x e :
  0 < x ->
  let n := Z.max 0 (Z.max (Zdigits2 x - 53) (-1074 - e)) in
  exists q1 q e',
    0 <= q1 /\ 2 * Z.abs (q1 * 2 ^ n - x) <= 2 ^ n /\ (n = 0 -> q1 = x) /\
    0 <= q /\ e + n <= e' /\ q * 2 ^ (e' - (e + n)) = q1 /\
    binary_round_aux prec emax s x e loc_Exact
    = match q with
      | Z0 => S754_zero s
      | Z.pos m => if e' <=? emax - prec then S754_finite s m e'
                   else S754_infinity s
      | Z.neg _ => S754_nan
      end.
Proof.
  intros Hx n. unfold binary_round_aux.
  assert (Hn : 0 <= n) by (subst n; lia).
  destruct (shr_fexp_inv x e ltac:(lia)) as [E1 I1]. fold n in E1, I1.
  destruct (shr_fexp prec emax x e loc_Exact) as [mrs' e1].
  cbn [fst snd] in E1, I1.
  destruct (round_nearest_even_inv x n mrs' Hn I1) as [Hq0 [Hq Hqx]].
  set (q1 := round_nearest_even (shr_m mrs') (loc_of_shr_record mrs')) in *.
  assert (HP : 0 < 2 ^ n) by (apply Z.pow_pos_nonneg; lia).
  assert (Hq53 : q1 <= 2 ^ 53).
  { destruct (Zdigits2_bounds x Hx) as [_ [_ Hhi]].
    assert (2 ^ Zdigits2 x <= 2 ^ (53 + n))
      by (apply Z.pow_le_mono_r; subst n; lia).
    rewrite Z.pow_add_r in H by lia.
    change (2 ^ 53) with 9007199254740992 in *.
    set (P := 2 ^ n) in *. nia. }
  assert (He1 : -1074 <= e1) by (subst n; lia).
  destruct (shr_fexp_inv q1 e1 Hq0) as [E2 I2].
  destruct (shr_fexp prec emax q1 e1 loc_Exact) as [mrs'' e''].
  cbn [fst snd] in E2, I2.
  destruct I2 as [Hm2 [t [Ht [Hx2 _]]]].
  destruct (Z.eq_dec q1 0) as [Hz | Hnz].
  - (* everything was rounded away *)
    assert (Hm0 : shr_m mrs'' = 0).
    { rewrite Hz in Hx2.
      set (n2 := Z.max 0 (Z.max (Zdigits2 0 - 53) (-1074 - e1))) in *.
      assert (0 < 2 ^ (n2 + 1)) by (apply Z.pow_pos_nonneg; subst n2; lia).
      assert (0 <= 2 ^ n2) by (apply Z.pow_nonneg; lia).
      destruct (shr_r mrs''); nia. }
    exists q1, 0, (e + n). rewrite Hm0, Hz.
    repeat split; lia.
  - destruct (Z_lt_le_dec q1 (2 ^ 53)) as [Hlt | Hge].
    + (* the rounded mantissa fits *)
      pose proof (Zdigits2_le q1 53 ltac:(lia) ltac:(lia) Hlt) as Hd1.
      replace (Z.max 0 (Z.max (Zdigits2 q1 - 53) (-1074 - e1))) with 0 in *
        by lia.
      change (2 ^ (0 + 1)) with 2 in Hx2. change (2 ^ 0) with 1 in *.
      assert (Hm : shr_m mrs'' = q1) by (destruct (shr_r mrs''); lia).
      exists q1, q1, e1. rewrite Hm.
      replace (e1 - (e + n)) with 0 by lia. change (2 ^ 0) with 1.
      replace e'' with e1 by lia.
      repeat split; try lia; assumption.
    + (* it rounded up to [2 ^ 53] *)
      assert (Heq : q1 = 2 ^ 53) by lia.
      assert (Hd : Zdigits2 q1 = 54) by (rewrite Heq; reflexivity).
      rewrite Hd in Ht, Hx2, E2. rewrite Heq in Hx2.
      replace (Z.max 0 (Z.max (54 - 53) (-1074 - e1))) with 1 in * by lia.
      change (2 ^ (1 + 1)) with 4 in Hx2. change (2 ^ 1) with 2 in *.
      change (2 ^ 53) with 9007199254740992 in *.
      assert (Hm : shr_m mrs'' = 4503599627370496)
        by (destruct (shr_r mrs''); lia).
      exists q1, 4503599627370496, (e1 + 1). rewrite Hm.
      replace (e1 + 1 - (e + n)) with 1 by lia. change (2 ^ 1) with 2.
      replace e'' with (e1 + 1) by lia.
      repeat split; try lia; assumption.
Qed.

End Float64Shift.

(* ===================================================================== *)
(** ** binary64 rounding: the error of one operation *)
(* ===================================================================== *)

Module Float64Error.
Import Float64 Float64Round Float64Shift.
Local Open Scope Q_scope.

Lemma pow2_pos e : 0 < 2 ^ e.
Proof. apply Qpower_0_lt. reflexivity. Qed.

Lemma pow2_add a b : 2 ^ (a + b) == 2 ^ a * 2 ^ b.
Proof. apply Qpower_plus. discriminate. Qed.

Lemma pow2_inject n : (0 <= n)%Z -> inject_Z (2 ^ n) == 2 ^ n.
Proof. intros Hn. now rewrite Zpower_Qpower. Qed.

Lemma inject_Z_abs z : inject_Z (Z.abs z) == Qabs (inject_Z z).
Proof.
  unfold Qabs, inject_Z. reflexivity.
Qed.

Lemma inject_Z_cond_Zopp s z :
  inject_Z (cond_Zopp s z) == (if s then -1 else 1) * inject_Z z.
Proof.
  destruct s; cbn [cond_Zopp]; [rewrite inject_Z_opp|]; ring.
Qed.

Lemma inject_Z_nonneg z : (0 <= z)%Z -> 0 <= inject_Z z.
Proof.
  intros Hz. change 0 with (inject_Z 0). now rewrite <- Zle_Qle.
Qed.

(** The number returned by [binary_round_aux] and its distance to the
    exact [x * 2 ^ e]: at most [2 ^ -53] of it, or [2 ^ -1075] where the
    result is subnormal. *)
Lemma binary_round_aux_error s x e :
  (0 < x)%Z ->
  let r := binary_round_aux prec emax s x e loc_Exact in
  is_finite r = true ->
  expo_ok r /\
  Qabs (F2Q r - inject_Z (cond_Zopp s x) * 2 ^ e)
  <= (1 # 2 ^ 53) * (inject_Z x * 2 ^ e)
     + (if (e <? -1074)%Z then 2 ^ (-1075) else 0).
Proof.
  intros Hx r Hfin. subst r.
  destruct (binary_round_aux_exact s x e Hx)
    as [q1 [q [e' [Hq1 [Herr [Hn0 [Hq [He' [Hqq Er]]]]]]]]].
  set (n := Z.max 0 (Z.max (Zdigits2 x - 53) (-1074 - e))) in *.
  assert (Hn : (0 <= n)%Z) by (subst n; lia).
  rewrite Er in *. clear Er.
  (* the value returned is [q1 * 2 ^ (e + n)] *)
  assert (Hval : F2Q match q with
                     | 0%Z => S754_zero s
                     | Z.pos m => if (e' <=? emax - prec)%Z
                                  then S754_finite s m e'
                                  else S754_infinity s
                     | Z.neg _ => S754_nan
                     end
                 == inject_Z (cond_Zopp s q1) * 2 ^ (e + n)).
  { destruct q as [|m|m]; [| |lia].
    - cbn [F2Q]. replace q1 with 0%Z by lia.
      destruct s; cbn [cond_Zopp Z.opp]; ring.
    - destruct (e' <=? emax - prec)%Z; [|discriminate Hfin].
      cbn [F2Q]. rewrite <- Hqq, !inject_Z_cond_Zopp, inject_Z_mult.
      rewrite pow2_inject by lia.
      replace e' with ((e' - (e + n)) + (e + n))%Z at 1 by lia.
      rewrite pow2_add. ring. }
  split.
  { destruct q as [|m|m]; [exact I | | exact I].
    destruct (e' <=? emax - prec)%Z; [|exact I]. cbn [expo_ok]. subst n. lia. }
  rewrite Hval. clear Hval Hfin.
  assert (Hd : inject_Z (cond_Zopp s q1) * 2 ^ (e + n)
               - inject_Z (cond_Zopp s x) * 2 ^ e
               == (if s then -1 else 1)
                  * inject_Z (q1 * 2 ^ n - x) * 2 ^ e).
  { rewrite !inject_Z_cond_Zopp, pow2_add.
    unfold Zminus. rewrite inject_Z_plus, inject_Z_opp, inject_Z_mult.
    rewrite pow2_inject by lia. ring. }
  rewrite Hd. clear Hd.
  rewrite !Qabs_Qmult. rewrite (Qabs_pos (2 ^ e)) by (apply Qlt_le_weak, pow2_pos).
  replace (Qabs (if s then -1 else 1)) with 1 by (now destruct s).
  rewrite Qmult_1_l, <- inject_Z_abs.
  pose proof (pow2_pos e) as Hpe.
  assert (HP : (0 < 2 ^ n)%Z) by (apply Z.pow_pos_nonneg; lia).
  destruct (Z.eq_dec n 0) as [Hz | Hnz].
  - (* nothing dropped: exact *)
    rewrite (Hn0 Hz), Hz. change (2 ^ 0)%Z with 1%Z.
    replace (x * 1 - x)%Z with 0%Z by lia. cbn [Z.abs].
    assert (0 <= inject_Z x) by (apply inject_Z_nonneg; lia).
    assert (0 <= (1 # 2 ^ 53) * (inject_Z x * 2 ^ e)).
    { apply Qmult_le_0_compat; [discriminate|].
      apply Qmult_le_0_compat; [assumption | lra]. }
    assert (0 <= (if (e <? -1074)%Z then 2 ^ (-1075) else 0)).
    { destruct (e <? -1074)%Z; [apply Qlt_le_weak, pow2_pos | lra]. }
    change (inject_Z 0) with 0.
    set (B := (1 # 2 ^ 53) * (inject_Z x * 2 ^ e)) in *.
    set (C := if (e <? -1074)%Z then 2 ^ (-1075) else 0) in *.
    lra.
  - destruct (Z_le_gt_dec (-1074 - e) (Zdigits2 x - 53)) as [Hnorm | Hsub].
    + (* normal: relative error *)
      assert (Hnd : n = (Zdigits2 x - 53)%Z) by (subst n; lia).
      destruct (Zdigits2_bounds x Hx) as [_ [Hlo _]].
      assert (H52 : (2 ^ n * 2 ^ 52 <= x)%Z).
      { rewrite <- Z.pow_add_r by lia.
        replace (n + 52)%Z with (Zdigits2 x - 1)%Z by lia. exact Hlo. }
      assert (Hz : (Z.abs (q1 * 2 ^ n - x) * 2 ^ 53 <= x)%Z).
      { change (2 ^ 52)%Z with 4503599627370496%Z in H52.
        change (2 ^ 53)%Z with 9007199254740992%Z. lia. }
      rewrite Zle_Qle in Hz. rewrite inject_Z_mult in Hz.
      change (inject_Z (2 ^ 53)) with (9007199254740992 # 1) in Hz.
      assert (0 <= (if (e <? -1074)%Z then 2 ^ (-1075) else 0)).
      { destruct (e <? -1074)%Z; [apply Qlt_le_weak, pow2_pos | lra]. }
      change (1 # 2 ^ 53) with (1 # 9007199254740992).
      set (A := inject_Z (Z.abs (q1 * 2 ^ n - x))) in *.
      set (X := inject_Z x) in *. set (Pe := 2 ^ e) in *.
      set (C := if (e <? -1074)%Z then 2 ^ (-1075) else 0) in *.
      assert (A * Pe <= (1 # 9007199254740992) * X * Pe).
      { apply Qmult_le_compat_r; [lra | lra]. }
      lra.
    + (* subnormal: absolute error *)
      assert (Hne : (e + n = -1074)%Z) by (subst n; lia).
      assert (Hlt : (e <? -1074)%Z = true) by (apply Z.ltb_lt; lia).
      rewrite Hlt.
      assert (0 <= inject_Z x) by (apply inject_Z_nonneg; lia).
      assert (0 <= (1 # 2 ^ 53) * (inject_Z x * 2 ^ e)).
      { apply Qmult_le_0_compat; [discriminate|].
        apply Qmult_le_0_compat; [assumption | lra]. }
      rewrite Zle_Qle in Herr. rewrite inject_Z_mult in Herr.
      rewrite pow2_inject in Herr by lia.
      assert (Hpp : 2 ^ n * 2 ^ e == 2 * 2 ^ (-1075)).
      { rewrite <- pow2_add. replace (n + e)%Z with (1 + -1075)%Z by lia.
        rewrite pow2_add. reflexivity. }
      set (A := inject_Z (Z.abs (q1 * 2 ^ n - x))) in *.
      set (Pe := 2 ^ e) in *.
      assert (inject_Z 2 * A * Pe <= 2 ^ n * Pe).
      { apply Qmult_le_compat_r; [exact Herr | lra]. }
      change (inject_Z 2) with 2 in *.
      rewrite Hpp in H1.
      set (B := (1 # 2 ^ 53) * (inject_Z x * Pe)) in *.
      set (eta := 2 ^ (-1075)) in *.
      lra.
Qed.

Lemma shl_align_value p e e' :
  let '(mz, ez) := shl_align p e e' in
  inject_Z (Z.pos mz) * 2 ^ ez == inject_Z (Z.pos p) * 2 ^ e /\
  (ez = e \/ ez = e')%Z.
Proof.
  unfold shl_align. destruct (e' - e)%Z as [|d|d] eqn:Ed.
  - split; [reflexivity | now left].
  - split; [reflexivity | now left].
  - split; [|now right].
    rewrite pos_iter_xO, inject_Z_mult, pow2_inject by lia.
    assert (E2 : 2 ^ e == 2 ^ Z.pos d * 2 ^ e').
    { rewrite <- pow2_add. now replace (Z.pos d + e')%Z with e by lia. }
    rewrite E2. ring.
Qed.

(** [binary_round] above the subnormal exponent rounds with a relative
    error of at most [2 ^ -53]. *)
Lemma binary_round_error s p e :
  (-1074 <= e)%Z ->
  let r := binary_round prec emax s p e in
  is_finite r = true ->
  expo_ok r /\
  Qabs (F2Q r - inject_Z (cond_Zopp s (Z.pos p)) * 2 ^ e)
  <= (1 # 2 ^ 53) * (inject_Z (Z.pos p) * 2 ^ e).
Proof.
  intros He r Hfin. subst r. unfold binary_round in *.
  pose proof (shl_align_value p e (fexp prec emax (Z.pos (digits2_pos p) + e)))
    as Hv.
  destruct (shl_align p e (fexp prec emax (Z.pos (digits2_pos p) + e)))
    as [mz ez].
  destruct Hv as [Hv Hez].
  assert (Hez' : (-1074 <= ez)%Z).
  { unfold fexp, emin, prec, emax in Hez. lia. }
  destruct (binary_round_aux_error s (Z.pos mz) ez eq_refl Hfin) as [Hok Hb].
  split; [exact Hok|].
  replace (ez <? -1074)%Z with false in Hb by (symmetry; apply Z.ltb_ge; lia).
  assert (E : inject_Z (cond_Zopp s (Z.pos mz)) * 2 ^ ez
              == inject_Z (cond_Zopp s (Z.pos p)) * 2 ^ e).
  { rewrite !inject_Z_cond_Zopp, <- !Qmult_assoc, Hv. reflexivity. }
  rewrite E, Hv, Qplus_0_r in Hb. exact Hb.
Qed.

(** The same for [binary_normalize], which also takes zero and negative
    integers. *)
Lemma binary_normalize_error z e :
  (-1074 <= e)%Z ->
  let r := binary_normalize prec emax z e false in
  is_finite r = true ->
  expo_ok r /\
  Qabs (F2Q r - inject_Z z * 2 ^ e) <= (1 # 2 ^ 53) * Qabs (inject_Z z * 2 ^ e).
Proof.
  intros He r Hfin. subst r.
  destruct z as [|p|p]; cbn [binary_normalize] in *.
  - split; [exact I|].
    assert (E0 : inject_Z 0 * 2 ^ e == 0) by (change (inject_Z 0) with 0; ring).
    rewrite E0. cbn [F2Q]. discriminate.
  - destruct (binary_round_error false p e He Hfin) as [Hok Hb].
    split; [exact Hok|]. cbn [cond_Zopp] in Hb.
    rewrite (Qabs_pos (inject_Z (Z.pos p) * 2 ^ e)); [exact Hb|].
    apply Qmult_le_0_compat; [apply inject_Z_nonneg; lia|].
    apply Qlt_le_weak, pow2_pos.
  - destruct (binary_round_error true p e He Hfin) as [Hok Hb].
    split; [exact Hok|]. cbn [cond_Zopp Z.opp] in Hb.
    setoid_replace (inject_Z (Z.neg p) * 2 ^ e)
      with (- (inject_Z (Z.pos p) * 2 ^ e)) at 2
      by (change (Z.neg p) with (- Z.pos p)%Z; rewrite inject_Z_opp; ring).
    rewrite Qabs_opp.
    rewrite (Qabs_pos (inject_Z (Z.pos p) * 2 ^ e)); [exact Hb|].
    apply Qmult_le_0_compat; [apply inject_Z_nonneg; lia|].
    apply Qlt_le_weak, pow2_pos.
Qed.

Lemma shl_align_min m e ez :
  (ez <= e)%Z ->
  inject_Z (Z.pos (fst (shl_align m e ez))) * 2 ^ ez
  == inject_Z (Z.pos m) * 2 ^ e.
Proof.
  intros Hle. pose proof (shl_align_value m e ez) as Hv.
  unfold shl_align in *. destruct (ez - e)%Z as [|d|d] eqn:Ed; cbn [fst].
  - now replace ez with e by lia.
  - lia.
  - apply Hv.
Qed.

Lemma F2Q_finite s m e :
  F2Q (S754_finite s m e) == (if s then -1 else 1) * inject_Z (Z.pos m) * 2 ^ e.
Proof. cbn [F2Q]. now rewrite inject_Z_cond_Zopp. Qed.

(** An operation with a finite result had finite operands. *)
Lemma finite_operands x y :
  (is_finite (add x y) = true -> is_finite x = true /\ is_finite y = true) /\
  (is_finite (sub x y) = true -> is_finite x = true /\ is_finite y = true) /\
  (is_finite (mul x y) = true -> is_finite x = true /\ is_finite y = true).
Proof.
  repeat split;
    destruct x as [sx|[|]| |sx mx ex], y as [sy|[|]| |sy my ey];
    try reflexivity; try discriminate.
Qed.

(** Addition: the sum of two finite numbers is exact or rounded with a
    relative error of at most [2 ^ -53]. *)
Lemma add_error x y :
  is_finite x = true -> is_finite y = true -> expo_ok x -> expo_ok y ->
  is_finite (add x y) = true ->
  expo_ok (add x y) /\
  Qabs (F2Q (add x y) - (F2Q x + F2Q y)) <= (1 # 2 ^ 53) * Qabs (F2Q x + F2Q y).
Proof.
  intros Hx Hy Ex Ey Hfin.
  assert (Hexact : forall z v, F2Q z == v ->
            Qabs (F2Q z - v) <= (1 # 2 ^ 53) * Qabs v).
  { intros z v E. setoid_replace (F2Q z - v) with 0 by (rewrite E; ring).
    apply Qmult_le_0_compat; [discriminate | apply Qabs_nonneg]. }
  destruct x as [sx|sx| |sx mx ex], y as [sy|sy| |sy my ey];
    try discriminate Hx; try discriminate Hy.
  - split; [now destruct sx, sy |].
    apply Hexact. destruct sx, sy; reflexivity.
  - split; [exact Ey |]. apply Hexact. cbn [add SFadd F2Q]. ring.
  - split; [exact Ex |]. apply Hexact. cbn [add SFadd F2Q]. ring.
  - unfold add in *. cbn [SFadd] in *. cbn [expo_ok] in Ex, Ey.
    set (ez := Z.min ex ey) in *.
    set (S := (cond_Zopp sx (Z.pos (fst (shl_align mx ex ez)))
               + cond_Zopp sy (Z.pos (fst (shl_align my ey ez))))%Z) in *.
    destruct (binary_normalize_error S ez ltac:(subst ez; lia) Hfin) as [Hok Hb].
    split; [exact Hok|].
    assert (E : inject_Z S * 2 ^ ez
                == F2Q (S754_finite sx mx ex) + F2Q (S754_finite sy my ey)).
    { subst S. rewrite inject_Z_plus, !inject_Z_cond_Zopp, !F2Q_finite.
      pose proof (shl_align_min mx ex ez ltac:(subst ez; lia)) as H1.
      pose proof (shl_align_min my ey ez ltac:(subst ez; lia)) as H2.
      transitivity
        ((if sx then -1 else 1)
           * (inject_Z (Z.pos (fst (shl_align mx ex ez))) * 2 ^ ez)
         + (if sy then -1 else 1)
           * (inject_Z (Z.pos (fst (shl_align my ey ez))) * 2 ^ ez));
        [ring | rewrite H1, H2; ring]. }
    rewrite E in Hb. exact Hb.
Qed.

(** Subtraction, likewise. *)
Lemma sub_error x y :
  is_finite x = true -> is_finite y = true -> expo_ok x -> expo_ok y ->
  is_finite (sub x y) = true ->
  expo_ok (sub x y) /\
  Qabs (F2Q (sub x y) - (F2Q x - F2Q y)) <= (1 # 2 ^ 53) * Qabs (F2Q x - F2Q y).
Proof.
  intros Hx Hy Ex Ey Hfin.
  assert (Hexact : forall z v, F2Q z == v ->
            Qabs (F2Q z - v) <= (1 # 2 ^ 53) * Qabs v).
  { intros z v E. setoid_replace (F2Q z - v) with 0 by (rewrite E; ring).
    apply Qmult_le_0_compat; [discriminate | apply Qabs_nonneg]. }
  destruct x as [sx|sx| |sx mx ex], y as [sy|sy| |sy my ey];
    try discriminate Hx; try discriminate Hy.
  - split; [now destruct sx, sy |].
    apply Hexact. destruct sx, sy; reflexivity.
  - split; [exact Ey |]. apply Hexact. cbn [sub SFsub].
    rewrite !F2Q_finite. cbn [F2Q]. destruct sy; cbn [negb]; ring.
  - split; [exact Ex |]. apply Hexact. cbn [sub SFsub F2Q]. ring.
  - unfold sub in *. cbn [SFsub] in *. cbn [expo_ok] in Ex, Ey.
    set (ez := Z.min ex ey) in *.
    set (S := (cond_Zopp sx (Z.pos (fst (shl_align mx ex ez)))
               - cond_Zopp sy (Z.pos (fst (shl_align my ey ez))))%Z) in *.
    destruct (binary_normalize_error S ez ltac:(subst ez; lia) Hfin) as [Hok Hb].
    split; [exact Hok|].
    assert (E : inject_Z S * 2 ^ ez
                == F2Q (S754_finite sx mx ex) - F2Q (S754_finite sy my ey)).
    { subst S. unfold Z.sub.
      rewrite inject_Z_plus, inject_Z_opp, !inject_Z_cond_Zopp, !F2Q_finite.
      pose proof (shl_align_min mx ex ez ltac:(subst ez; lia)) as H1.
      pose proof (shl_align_min my ey ez ltac:(subst ez; lia)) as H2.
      transitivity
        ((if sx then -1 else 1)
           * (inject_Z (Z.pos (fst (shl_align mx ex ez))) * 2 ^ ez)
         - (if sy then -1 else 1)
           * (inject_Z (Z.pos (fst (shl_align my ey ez))) * 2 ^ ez));
        [ring | rewrite H1, H2; ring]. }
    rewrite E in Hb. exact Hb.
Qed.

(** Multiplication: a relative error of at most [2 ^ -53], or an absolute
    one of at most [2 ^ -1075] where the product is subnormal. *)
Lemma mul_error x y :
  is_finite x = true -> is_finite y = true ->
  is_finite (mul x y) = true ->
  expo_ok (mul x y) /\
  Qabs (F2Q (mul x y) - F2Q x * F2Q y)
  <= (1 # 2 ^ 53) * Qabs (F2Q x * F2Q y) + 2 ^ (-1075).
Proof.
  intros Hx Hy Hfin.
  assert (Hexact : forall z v, F2Q z == v ->
            Qabs (F2Q z - v) <= (1 # 2 ^ 53) * Qabs v + 2 ^ (-1075)).
  { intros z v E. setoid_replace (F2Q z - v) with 0 by (rewrite E; ring).
    assert (0 <= (1 # 2 ^ 53) * Qabs v)
      by (apply Qmult_le_0_compat; [discriminate | apply Qabs_nonneg]).
    pose proof (pow2_pos (-1075)).
    change (Qabs 0) with 0.
    set (A := (1 # 2 ^ 53) * Qabs v) in *. set (B := 2 ^ (-1075)) in *. lra. }
  destruct x as [sx|sx| |sx mx ex], y as [sy|sy| |sy my ey];
    try discriminate Hx; try discriminate Hy.
  - split; [exact I |]. apply Hexact. cbn [mul SFmul F2Q]. ring.
  - split; [exact I |]. apply Hexact. cbn [mul SFmul F2Q]. ring.
  - split; [exact I |]. apply Hexact. cbn [mul SFmul F2Q]. ring.
  - unfold mul in *. cbn [SFmul] in *.
    destruct (binary_round_aux_error (xorb sx sy) (Z.pos (mx * my)) (ex + ey)
                eq_refl Hfin) as [Hok Hb].
    split; [exact Hok|].
    assert (E : inject_Z (cond_Zopp (xorb sx sy) (Z.pos (mx * my)))
                * 2 ^ (ex + ey)
                == F2Q (S754_finite sx mx ex) * F2Q (S754_finite sy my ey)).
    { rewrite !F2Q_finite, inject_Z_cond_Zopp, Pos2Z.inj_mul, inject_Z_mult,
        pow2_add.
      destruct sx, sy; cbn [xorb]; ring. }
    assert (A : inject_Z (Z.pos (mx * my)) * 2 ^ (ex + ey)
                == Qabs (F2Q (S754_finite sx mx ex)
                         * F2Q (S754_finite sy my ey))).
    { rewrite <- E, Qabs_Qmult.
      rewrite (Qabs_pos (2 ^ (ex + ey))) by apply Qlt_le_weak, pow2_pos.
      rewrite <- inject_Z_abs.
      replace (Z.abs (cond_Zopp (xorb sx sy) (Z.pos (mx * my))))
        with (Z.pos (mx * my)) by (now destruct (xorb sx sy)).
      reflexivity. }
    rewrite E, A in Hb.
    eapply Qle_trans; [exact Hb|].
    apply Qplus_le_r.
    destruct (ex + ey <? -1074)%Z; [apply Qle_refl |].
    apply Qlt_le_weak, pow2_pos.
Qed.

End Float64Error.

(* ===================================================================== *)
(** ** TempConvertor against the conversion formulas *)
(* ===================================================================== *)

Module ExercisesAccuracy.
Import Float64 Float64Facts Float64Round Float64Error Exercises.
Local Open Scope Q_scope.

Lemma Qabs_cases t :
  (0 <= t /\ Qabs t == t) \/ (t <= 0 /\ Qabs t == - t).
Proof.
  destruct (Qlt_le_dec t 0) as [Hlt | Hge].
  - right. split; [lra | apply Qabs_neg; lra].
  - left. split; [exact Hge | now apply Qabs_pos].
Qed.

Lemma eta_small : 2 ^ (-1075) <= 1 # 2 ^ 200.
Proof. unfold Qle. vm_compute. discriminate. Qed.

Lemma F2Q_32 : F2Q (S754_finite false 4503599627370496 (-47)) == 32.
Proof. vm_compute. reflexivity. Qed.

Lemma F2Q_9_5 :
  F2Q (S754_finite false 8106479329266893 (-52))
  == 8106479329266893 # 4503599627370496.
Proof. vm_compute. reflexivity. Qed.

Lemma F2Q_5_9 :
  F2Q (S754_finite false 5003999585967218 (-53))
  == 5003999585967218 # 9007199254740992.
Proof. vm_compute. reflexivity. Qed.

Lemma F2Q_273_15 :
  F2Q (S754_finite false 4805305618032230 (-44))
  == 4805305618032230 # 17592186044416.
Proof. vm_compute. reflexivity. Qed.

Ltac qabs_le H :=
  apply Qabs_Qle_condition in H; destruct H.

Ltac qabs_atoms :=
  repeat match goal with
  | |- context [Qabs ?t] =>
      let a := fresh "a" in
      destruct (Qabs_cases t) as [[? ?]|[? ?]];
      set (a := Qabs t) in *; clearbody a
  | H : context [Qabs ?t] |- _ =>
      let a := fresh "a" in
      destruct (Qabs_cases t) as [[? ?]|[? ?]];
      set (a := Qabs t) in *; clearbody a
  end.

(** [x * 9/5 + 32] as computed. *)
Lemma to_fahrenheit_error x :
  is_finite x = true ->
  let f := add (mul x (S754_finite false 8106479329266893 (-52)))
               (S754_finite false 4503599627370496 (-47)) in
  is_finite f = true ->
  Qabs (F2Q f - (F2Q x * (9 # 5) + 32))
  <= (1 # 2 ^ 51) * (Qabs (F2Q x) * (9 # 5) + 32).
Proof.
  intros Hx f Hf. subst f.
  set (K := S754_finite false 8106479329266893 (-52)) in *.
  set (B := S754_finite false 4503599627370496 (-47)) in *.
  destruct (finite_operands (mul x K) B) as [Hop _].
  destruct (Hop Hf) as [Hp _].
  destruct (mul_error x K Hx eq_refl Hp) as [Ep Hm].
  destruct (add_error (mul x K) B Hp eq_refl Ep ltac:(cbn; lia) Hf) as [_ Ha].
  unfold K, B in Hm, Ha. rewrite F2Q_9_5 in Hm. rewrite F2Q_32 in Ha.
  fold K in Hm, Ha. fold B in Ha |- *. fold K.
  pose proof eta_small as Heta.
  set (eta := 2 ^ (-1075)) in *. clearbody eta.
  set (vf := F2Q (add (mul x K) B)) in *. clearbody vf.
  set (vp := F2Q (mul x K)) in *. clearbody vp.
  set (vx := F2Q x) in *. clearbody vx.
  change (1 # 2 ^ 53) with (1 # 9007199254740992) in *.
  change (1 # 2 ^ 51) with (1 # 2251799813685248).
  change (1 # 2 ^ 200) with (1 # 1606938044258990275541962092341162602522202993782792835301376) in *.
  qabs_le Hm. qabs_le Ha. apply Qabs_Qle_condition.
  qabs_atoms; split; lra.
Qed.

Ltac numerals :=
  change (1 # 2 ^ 53) with (1 # 9007199254740992) in *;
  change (1 # 2 ^ 51) with (1 # 2251799813685248) in *;
  change (1 # 2 ^ 200)
    with (1 # 1606938044258990275541962092341162602522202993782792835301376)
    in *.

(** [x + 273.15] as computed. *)
Lemma to_kelvin_error x :
  is_finite x = true -> expo_ok x ->
  let k := add x (S754_finite false 4805305618032230 (-44)) in
  is_finite k = true ->
  Qabs (F2Q k - (F2Q x + (27315 # 100)))
  <= (1 # 2 ^ 51) * (Qabs (F2Q x) + (27315 # 100)).
Proof.
  intros Hx Ex k Hk. subst k.
  set (C := S754_finite false 4805305618032230 (-44)) in *.
  destruct (add_error x C Hx eq_refl Ex ltac:(cbn; lia) Hk) as [_ Ha].
  unfold C in Ha. rewrite F2Q_273_15 in Ha. fold C in Ha.
  set (vk := F2Q (add x C)) in *. clearbody vk.
  set (vx := F2Q x) in *. clearbody vx.
  numerals.
  qabs_le Ha. apply Qabs_Qle_condition.
  qabs_atoms; split; lra.
Qed.

(** [(x - 32) * 5/9] as computed, read in both directions. *)
Lemma from_fahrenheit_error x :
  is_finite x = true -> expo_ok x ->
  let c := mul (sub x (S754_finite false 4503599627370496 (-47)))
               (S754_finite false 5003999585967218 (-53)) in
  is_finite c = true ->
  expo_ok c /\
  Qabs (F2Q c - (F2Q x - 32) * (5 # 9))
  <= (1 # 2 ^ 51) * ((Qabs (F2Q x) + 32) * (5 # 9)) /\
  Qabs (F2Q x - (F2Q c * (9 # 5) + 32))
  <= (1 # 2 ^ 51) * (Qabs (F2Q c) * (9 # 5) + 32).
Proof.
  intros Hx Ex c Hc. subst c.
  set (B := S754_finite false 4503599627370496 (-47)) in *.
  set (K := S754_finite false 5003999585967218 (-53)) in *.
  destruct (finite_operands (sub x B) K) as [_ [_ Hop]].
  destruct (Hop Hc) as [Hd _].
  destruct (sub_error x B Hx eq_refl Ex ltac:(cbn; lia) Hd) as [Ed Hs].
  destruct (mul_error (sub x B) K Hd eq_refl Hc) as [Ec Hm].
  split; [exact Ec|].
  unfold K, B in Hm, Hs. rewrite F2Q_5_9 in Hm. rewrite F2Q_32 in Hs.
  fold K in Hm. fold B in Hm, Hs.
  pose proof eta_small as Heta.
  set (eta := 2 ^ (-1075)) in *. clearbody eta.
  set (vc := F2Q (mul (sub x B) K)) in *. clearbody vc.
  set (vd := F2Q (sub x B)) in *. clearbody vd.
  set (vx := F2Q x) in *. clearbody vx.
  numerals.
  qabs_le Hm. qabs_le Hs.
  split; apply Qabs_Qle_condition; qabs_atoms; split; lra.
Qed.

(** [x - 273.15] as computed, read in both directions. *)
Lemma from_kelvin_error x :
  is_finite x = true -> expo_ok x ->
  let c := sub x (S754_finite false 4805305618032230 (-44)) in
  is_finite c = true ->
  expo_ok c /\
  Qabs (F2Q c - (F2Q x - (27315 # 100)))
  <= (1 # 2 ^ 51) * (Qabs (F2Q x) + (27315 # 100)) /\
  Qabs (F2Q x - (F2Q c + (27315 # 100)))
  <= (1 # 2 ^ 51) * (Qabs (F2Q c) + (27315 # 100)).
Proof.
  intros Hx Ex c Hc. subst c.
  set (C := S754_finite false 4805305618032230 (-44)) in *.
  destruct (sub_error x C Hx eq_refl Ex ltac:(cbn; lia) Hc) as [Ec Hs].
  split; [exact Ec|].
  unfold C in Hs. rewrite F2Q_273_15 in Hs. fold C in Hs.
  set (vc := F2Q (sub x C)) in *. clearbody vc.
  set (vx := F2Q x) in *. clearbody vx.
  numerals.
  qabs_le Hs.
  split; apply Qabs_Qle_condition; qabs_atoms; split; lra.
Qed.

(** A binary64 number has an exponent of at least -1074. *)
Lemma valid_expo_ok x : valid_binary prec emax x = true -> expo_ok x.
Proof.
  destruct x as [s|s| |s m e]; try (intros _; exact I).
  cbn [valid_binary expo_ok]. unfold bounded, canonical_mantissa, fexp, emin,
    prec, emax.
  intros H. apply andb_prop in H. destruct H as [H _].
  apply Z.eqb_eq in H. lia.
Qed.

(** The constants of the code are 32 and the binary64 numbers nearest to
    9/5, 5/9 and 273.15: each lies within half a unit in its last place. *)
Lemma conversion_constants :
  of_int 32 = S754_finite false 4503599627370496 (-47) /\
  nineOverFive = S754_finite false 8106479329266893 (-52) /\
  fiveOverNine = S754_finite false 5003999585967218 (-53) /\
  c273_15 = S754_finite false 4805305618032230 (-44) /\
  F2Q (S754_finite false 4503599627370496 (-47)) == 32 /\
  Qabs (F2Q (S754_finite false 8106479329266893 (-52)) - (9 # 5))
  <= 1 # 2 ^ 53 /\
  Qabs (F2Q (S754_finite false 5003999585967218 (-53)) - (5 # 9))
  <= 1 # 2 ^ 54 /\
  Qabs (F2Q (S754_finite false 4805305618032230 (-44)) - (27315 # 100))
  <= 1 # 2 ^ 45.
Proof.
  repeat split; try (vm_compute; reflexivity);
    unfold Qle; vm_compute; discriminate.
Qed.

(** At 13 degrees Celsius the Fahrenheit output is the binary64 number next
    above the one nearest to 55.4: the formulas hold up to rounding, not to
    the last digit. *)
Example fahrenheit_of_13 :
  fahrenheit_of (TempConvertor (of_int 13) Celsius)
  = S754_finite false 7796856854885172 (-47) /\
  div (of_int 554) (of_int 10) = S754_finite false 7796856854885171 (-47).
Proof. split; vm_compute; reflexivity. Qed.

(** C4: for every [temp] and every valid mode the three outputs follow the
    linear conversion formulas.  The output of the input scale is [temp]
    itself.  The two others are [fahrenheit = celsius * 9/5 + 32] and
    [kelvin = celsius + 273.15], with [celsius = (fahrenheit - 32) * 5/9]
    in Fahrenheit mode and [celsius = kelvin - 273.15] in Kelvin mode,
    computed in binary64 with the constants 32 and the binary64 numbers
    nearest to 9/5, 5/9 and 273.15.  For a binary64 [temp] with finite
    outputs, each output is within [2 ^ -51] of the size of the terms of
    its formula from the value the formula has over the rationals. *)
Theorem TempConvertor_linear (temp : float64) (mode : Temp) :
  mode = Celsius \/ mode = Fahrenheit \/ mode = Kelvin ->
  let '(celsius, fahrenheit, kelvin) := TempConvertor temp mode in
  let nine_fifths := S754_finite false 8106479329266893 (-52) in
  let five_ninths := S754_finite false 5003999585967218 (-53) in
  let thirty_two := S754_finite false 4503599627370496 (-47) in
  let offset := S754_finite false 4805305618032230 (-44) in
  (F2Q thirty_two == 32 /\
   Qabs (F2Q nine_fifths - (9 # 5)) <= 1 # 2 ^ 53 /\
   Qabs (F2Q five_ninths - (5 # 9)) <= 1 # 2 ^ 54 /\
   Qabs (F2Q offset - (27315 # 100)) <= 1 # 2 ^ 45) /\
  (mode = Celsius ->
     celsius = temp /\
     fahrenheit = add (mul celsius nine_fifths) thirty_two /\
     kelvin = add celsius offset) /\
  (mode = Fahrenheit ->
     fahrenheit = temp /\
     celsius = mul (sub fahrenheit thirty_two) five_ninths /\
     kelvin = add celsius offset) /\
  (mode = Kelvin ->
     kelvin = temp /\
     celsius = sub kelvin offset /\
     fahrenheit = add (mul celsius nine_fifths) thirty_two) /\
  (valid_binary prec emax temp = true ->
   is_finite celsius = true -> is_finite fahrenheit = true ->
   is_finite kelvin = true ->
     Qabs (F2Q fahrenheit - (F2Q celsius * (9 # 5) + 32))
     <= (1 # 2 ^ 51) * (Qabs (F2Q celsius) * (9 # 5) + 32) /\
     Qabs (F2Q kelvin - (F2Q celsius + (27315 # 100)))
     <= (1 # 2 ^ 51) * (Qabs (F2Q celsius) + (27315 # 100)) /\
     (mode = Fahrenheit ->
      Qabs (F2Q celsius - (F2Q fahrenheit - 32) * (5 # 9))
      <= (1 # 2 ^ 51) * ((Qabs (F2Q fahrenheit) + 32) * (5 # 9))) /\
     (mode = Kelvin ->
      Qabs (F2Q celsius - (F2Q kelvin - (27315 # 100)))
      <= (1 # 2 ^ 51) * (Qabs (F2Q kelvin) + (27315 # 100)))).
Proof.
  destruct conversion_constants
    as [E32 [E95 [E59 [E273 [V32 [V95 [V59 V273]]]]]]].
  intros Hmode.
  assert (Hc : TempConvertor temp Celsius
               = (temp,
                  add (mul temp (S754_finite false 8106479329266893 (-52)))
                      (S754_finite false 4503599627370496 (-47)),
                  add temp (S754_finite false 4805305618032230 (-44)))).
  { unfold TempConvertor. cbn [Z.eqb Celsius]. now rewrite E32, E95, E273. }
  assert (Hf : TempConvertor temp Fahrenheit
               = (mul (sub temp (S754_finite false 4503599627370496 (-47)))
                      (S754_finite false 5003999585967218 (-53)),
                  temp,
                  add (mul (sub temp (S754_finite false 4503599627370496 (-47)))
                           (S754_finite false 5003999585967218 (-53)))
                      (S754_finite false 4805305618032230 (-44)))).
  { unfold TempConvertor. cbn [Z.eqb Celsius Fahrenheit Pos.eqb].
    now rewrite E32, E59, E273. }
  assert (Hk : TempConvertor temp Kelvin
               = (sub temp (S754_finite false 4805305618032230 (-44)),
                  add (mul (sub temp (S754_finite false 4805305618032230 (-44)))
                           (S754_finite false 8106479329266893 (-52)))
                      (S754_finite false 4503599627370496 (-47)),
                  temp)).
  { unfold TempConvertor. cbn [Z.eqb Celsius Fahrenheit Kelvin Pos.eqb].
    now rewrite E32, E95, E273. }
  destruct Hmode as [-> | [-> | ->]].
  - rewrite Hc. cbv zeta.
    split; [now repeat split |].
    split; [intros _; now repeat split |].
    split; [intros H; discriminate H |].
    split; [intros H; discriminate H |].
    intros Hv Hfc Hff Hfk. pose proof (valid_expo_ok temp Hv) as Ex.
    split; [now apply to_fahrenheit_error |].
    split; [now apply to_kelvin_error |].
    split; intros H; discriminate H.
  - rewrite Hf. cbv zeta.
    split; [now repeat split |].
    split; [intros H; discriminate H |].
    split; [intros _; now repeat split |].
    split; [intros H; discriminate H |].
    intros Hv Hfc Hff Hfk. pose proof (valid_expo_ok temp Hv) as Ex.
    destruct (from_fahrenheit_error temp Hff Ex Hfc) as [Ec [Hd Hi]].
    split; [exact Hi |].
    split; [now apply to_kelvin_error |].
    split; [intros _; exact Hd | intros H; discriminate H].
  - rewrite Hk. cbv zeta.
    split; [now repeat split |].
    split; [intros H; discriminate H |].
    split; [intros H; discriminate H |].
    split; [intros _; now repeat split |].
    intros Hv Hfc Hff Hfk. pose proof (valid_expo_ok temp Hv) as Ex.
    destruct (from_kelvin_error temp Hfk Ex Hfc) as [Ec [Hd Hi]].
    split; [now apply to_fahrenheit_error |].
    split; [exact Hi |].
    split; [intros H; discriminate H | intros _; exact Hd].
Qed.

Lemma TempConvertor_linear_witness :
  (Celsius = Celsius \/ Celsius = Fahrenheit \/ Celsius = Kelvin) /\
  valid_binary prec emax (of_int 13) = true /\
  let '(celsius, fahrenheit, kelvin) := TempConvertor (of_int 13) Celsius in
  celsius = of_int 13 /\
  Qabs (F2Q fahrenheit - (F2Q celsius * (9 # 5) + 32))
  <= (1 # 2 ^ 51) * (Qabs (F2Q celsius) * (9 # 5) + 32) /\
  Qabs (F2Q kelvin - (F2Q celsius + (27315 # 100)))
  <= (1 # 2 ^ 51) * (Qabs (F2Q celsius) + (27315 # 100)).
Proof.
  assert (Hm : Celsius = Celsius \/ Celsius = Fahrenheit \/ Celsius = Kelvin)
    by (left; reflexivity).
  split; [exact Hm | split; [reflexivity |]].
  pose proof (TempConvertor_linear (of_int 13) Celsius Hm) as H.
  destruct (TempConvertor (of_int 13) Celsius) as [[celsius fahrenheit] kelvin]
    eqn:E.
  cbv zeta in H.
  destruct H as [_ [Hc [_ [_ Hacc]]]].
  destruct (Hc eq_refl) as [Ec _].
  split; [exact Ec |].
  vm_compute in E. injection E as E1 E2 E3.
  destruct (Hacc eq_refl
              ltac:(rewrite <- E1; reflexivity)
              ltac:(rewrite <- E2; reflexivity)
              ltac:(rewrite <- E3; reflexivity)) as [H1 [H2 _]].
  split; assumption.
Defined.

End ExercisesAccuracy.
